(** * The dashboard client of the social publishing pipeline

    A shallow embedding of the client code: the API gateway ([apiFetch] and
    the session helpers of [components/api]), and the dashboard page
    ([DashboardPage]) with its handlers, its polling timer and the parts of
    its rendering that decide which controls exist.

    TypeScript [number] is modelled by [Z] (the page never computes with
    numbers, it only stores, prints and sends them), timestamps by the
    strings the server sends.  A request body is the JSON value handed to
    [JSON.stringify]; a response carries the text of its body and the value
    [res.json()] yields at the type the call site asks for. *)

From Stdlib Require Import ZArith.
From stdpp Require Import base tactics option list strings gmap pretty.

Open Scope Z_scope.

(** ** Data model (the type declarations of [dashboard/page.tsx]) *)

Inductive Platform := instagram | facebook.

Record Config := {
  approval_required : bool;
  interval_days : Z;
  max_candidates : Z;
  pick_top_n : Z;
}.

Record Source := {
  source_id : Z;
  source_platform : Platform;
  handle : string;
  enabled : bool;
  source_created_at : string;
}.

Record Gen := {
  title_en : string;
  caption_en : string;
  hashtags_en : list string;
}.

Record Candidate := {
  id : Z;
  platform : Platform;
  original_url : string;
  caption_raw : option string;
  media_type : string;
  media_url : option string;
  posted_at_source : option string;
  engagement_score : Z;
  status : string;
  created_at : string;
  generated : option Gen;
}.

Record Stats := {
  total_candidates : Z;
  total_published : Z;
  pending_approval : Z;
  last_run_at : option string;
}.

Record LogEvent := {
  log_id : Z;
  level : string;
  log_message : string;
  job_id : option Z;
  log_created_at : string;
}.

(** The identity the page keeps from [/me]. *)
Record Me := {
  email : string;
  workspace_name : string;
}.

(** The answer of [/api/run]. *)
Record Enqueued := { enqueued_job_id : Z }.

(** ** JavaScript values the client throws and sends *)

(** A thrown error object: [new Error(m)] has name [Error]; a failed [fetch]
    rejects with a [TypeError], a body that is not JSON with a
    [SyntaxError]. *)
Record JsError := {
  name : string;
  message : string;
}.

Definition Error (m : string) : JsError := {| name := "Error"; message := m |}.

(** [Error.prototype.toString]. *)
Definition toString (e : JsError) : string :=
  if decide (name e = "") then message e
  else if decide (message e = "") then name e
  else name e +:+ ": " +:+ message e.

(** [String(e?.message || e)], the text every handler puts in [err]. *)
Definition errText (e : JsError) : string :=
  if decide (message e = "") then toString e else message e.

(** How a promise settles. *)
Inductive Outcome (T : Type) :=
| Fulfilled (v : T)
| Rejected (e : JsError).
Arguments Fulfilled {T} v.
Arguments Rejected {T} e.

(** The error of a rejected promise. *)
Definition rejection {T} (o : Outcome T) : option JsError :=
  match o with
  | Fulfilled _ => None
  | Rejected e => Some e
  end.

(** The argument of [JSON.stringify] in a request body. *)
Unset Elimination Schemes.
Inductive Json :=
| JBool (b : bool)
| JNum (n : Z)
| JStr (s : string)
| JObj (fields : list (string * Json)).
Set Elimination Schemes.

Definition json_of_platform (p : Platform) : Json :=
  match p with
  | instagram => JStr "instagram"
  | facebook => JStr "facebook"
  end.

Definition json_of_config (c : Config) : Json :=
  JObj [ ("approval_required", JBool (approval_required c));
         ("interval_days", JNum (interval_days c));
         ("max_candidates", JNum (max_candidates c));
         ("pick_top_n", JNum (pick_top_n c)) ].

(** ** Session store and environment ([components/api]) *)

(** What the module reads from its surroundings: the build-time variable
    [NEXT_PUBLIC_API_URL] and [window.localStorage], absent when there is no
    [window]. *)
Record Env := {
  NEXT_PUBLIC_API_URL : option string;
  localStorage : option (gmap string string);
}.

Definition API_URL (env : Env) : string :=
  match NEXT_PUBLIC_API_URL env with
  | Some u => if decide (u = "") then "http://localhost:8000" else u
  | None => "http://localhost:8000"
  end.

Definition getToken (env : Env) : option string :=
  match localStorage env with
  | None => None
  | Some ls => ls !! "token"
  end.

Definition setToken (t : string) (env : Env) : Env :=
  match localStorage env with
  | None => env
  | Some ls =>
      {| NEXT_PUBLIC_API_URL := NEXT_PUBLIC_API_URL env;
         localStorage := Some (<["token" := t]> ls) |}
  end.

Definition clearToken (env : Env) : Env :=
  match localStorage env with
  | None => env
  | Some ls =>
      {| NEXT_PUBLIC_API_URL := NEXT_PUBLIC_API_URL env;
         localStorage := Some (delete "token" ls) |}
  end.

(** ** Requests, responses and [apiFetch] *)

Record RequestInit := {
  init_method : option string;
  init_body : option Json;
  init_headers : gmap string string;
}.

(** [{}], [{ method, body }]. *)
Definition no_init : RequestInit :=
  {| init_method := None; init_body := None; init_headers := ∅ |}.
Definition POST (b : Json) : RequestInit :=
  {| init_method := Some "POST"; init_body := Some b; init_headers := ∅ |}.

Record Request := {
  url : string;
  method : option string;
  headers : gmap string string;
  body : option Json;
  cache : string;
}.

Record Response (T : Type) := {
  res_status : Z;
  res_text : Outcome string;
  res_json : Outcome T;
}.
Arguments res_status {T} _.
Arguments res_text {T} _.
Arguments res_json {T} _.

(** [res.ok]: the status is in the range 200-299. *)
Definition res_ok {T} (res : Response T) : bool :=
  bool_decide (200 ≤ res_status res ≤ 299).

(** The type argument of an [apiFetch<T>] call.  [any] at [/me] is used at
    the two fields the page reads; a call without type argument discards its
    result. *)
Inductive ty :=
| TMe | TConfig | TSources | TSource | TStats | TLogs | TPosts | TEnqueued
| TUnknown.

Definition denote (t : ty) : Type :=
  match t with
  | TMe => Me
  | TConfig => Config
  | TSources => list Source
  | TSource => Source
  | TStats => Stats
  | TLogs => list LogEvent
  | TPosts => list Candidate
  | TEnqueued => Enqueued
  | TUnknown => unit
  end.

(** A promise of the gateway: one [fetch] whose result is post-processed, or
    [Promise.all] of two such promises.  The requests of a promise are sent
    when it is created, before anything is awaited. *)
Inductive Promise : Type → Type :=
| fetch_then {A} (t : ty) (req : Request)
    (k : Outcome (Response (denote t)) → Outcome A) : Promise A
| Promise_all {A B} (p : Promise A) (q : Promise B) : Promise (A * B).

(** The first line of [apiFetch]'s error branch: [txt || `HTTP ${res.status}`]. *)
Definition error_message (txt : string) (st : Z) : string :=
  if decide (txt = "") then "HTTP " +:+ pretty st else txt.

(** What [apiFetch] does once [fetch] has settled. *)
Definition apiFetch_settle {T} (r : Outcome (Response T)) : Outcome T :=
  match r with
  | Rejected e => Rejected e
  | Fulfilled res =>
      if negb (res_ok res) then
        match res_text res with
        | Fulfilled txt => Rejected (Error (error_message txt (res_status res)))
        | Rejected e => Rejected e
        end
      else res_json res
  end.

(** What [apiFetch] sends.  Header names are compared as they are written;
    the [Headers] object of the browser compares them without regard to
    case.  The two differ only for a caller that passes headers of its own
    under another spelling, and no call site of the repository passes
    headers. *)
Definition apiFetch_request (env : Env) (path : string) (init : RequestInit)
  : Request :=
  let token := getToken env in
  let headers := init_headers init in
  let headers := <["Content-Type" := "application/json"]> headers in
  let headers :=
    match token with
    | Some tk => if decide (tk = "") then headers
                 else <["Authorization" := "Bearer " +:+ tk]> headers
    | None => headers
    end in
  {| url := API_URL env +:+ path;
     method := init_method init;
     headers := headers;
     body := init_body init;
     cache := "no-store" |}.

Definition apiFetch (t : ty) (path : string) (init : RequestInit) (env : Env)
  : Promise (denote t) :=
  fetch_then t (apiFetch_request env path init) apiFetch_settle.

(** [Promise.all([a, b, c])] and [Promise.all([a, b, c, d, e])]; the array a
    destructuring pattern takes apart is a nested pair here. *)
Definition Promise_all3 {A B C} (a : Promise A) (b : Promise B) (c : Promise C)
  : Promise (A * (B * C)) :=
  Promise_all a (Promise_all b c).

Definition Promise_all5 {A B C D E}
    (a : Promise A) (b : Promise B) (c : Promise C) (d : Promise D)
    (e : Promise E) : Promise (A * (B * (C * (D * E)))) :=
  Promise_all a (Promise_all b (Promise_all c (Promise_all d e))).

(** ** The network *)

(** What comes back for a request, and when: a response, or the rejection of
    [fetch] itself (a transport failure). *)
Record Arrival (T : Type) := {
  at_time : nat;
  result : Outcome (Response T);
}.
Arguments at_time {T} _.
Arguments result {T} _.

(** The remote service, out of the client's hands: it answers the [n]-th
    request the client has sent, at the type the call site asks for. *)
Definition Net := ∀ t : ty, nat → Request → Arrival (denote t).

(** The requests a promise sends, in the order of the calls. *)
Fixpoint issue {A} (p : Promise A) : list Request :=
  match p with
  | fetch_then _ req _ => [req]
  | Promise_all p q => issue p ++ issue q
  end.

(** When and how a promise settles, its first request being the [n]-th.
    [Promise.all] is fulfilled once both sides are, and rejected as soon as
    one side is, with that side's error. *)
Fixpoint settle (net : Net) (n : nat) {A} (p : Promise A) : nat * Outcome A :=
  match p with
  | fetch_then t req k =>
      let a := net t n req in (at_time a, k (result a))
  | Promise_all p q =>
      let '(tp, op) := settle net n p in
      let '(tq, oq) := settle net (n + length (issue p))%nat q in
      match op, oq with
      | Fulfilled a, Fulfilled b => (Nat.max tp tq, Fulfilled (a, b))
      | Rejected e, Fulfilled _ => (tp, Rejected e)
      | Fulfilled _, Rejected e => (tq, Rejected e)
      | Rejected e1, Rejected e2 =>
          if bool_decide (tp ≤ tq)%nat then (tp, Rejected e1)
          else (tq, Rejected e2)
      end
  end.

(** ** The state of [DashboardPage] *)

Inductive Tab := tab_overview | tab_config | tab_sources | tab_queue | tab_logs.

Record State := {
  tab : Tab;
  me : option Me;
  cfg : option Config;
  sources : list Source;
  posts : list Candidate;
  stats : option Stats;
  logs : list LogEvent;
  runAuto : bool;
  runLoading : bool;
  err : option string;
  newPlatform : Platform;
  newHandle : string;
}.

(** The values of the [useState] calls. *)
Definition initial_state : State :=
  {| tab := tab_overview; me := None; cfg := None; sources := []; posts := [];
     stats := None; logs := []; runAuto := false; runLoading := false;
     err := None; newPlatform := instagram; newHandle := "" |}.

Definition setTab (v : Tab) (s : State) : State :=
  {| tab := v; me := me s; cfg := cfg s; sources := sources s;
     posts := posts s; stats := stats s; logs := logs s; runAuto := runAuto s;
     runLoading := runLoading s; err := err s; newPlatform := newPlatform s;
     newHandle := newHandle s |}.
Definition setMe (v : option Me) (s : State) : State :=
  {| tab := tab s; me := v; cfg := cfg s; sources := sources s;
     posts := posts s; stats := stats s; logs := logs s; runAuto := runAuto s;
     runLoading := runLoading s; err := err s; newPlatform := newPlatform s;
     newHandle := newHandle s |}.
Definition setCfg (v : option Config) (s : State) : State :=
  {| tab := tab s; me := me s; cfg := v; sources := sources s;
     posts := posts s; stats := stats s; logs := logs s; runAuto := runAuto s;
     runLoading := runLoading s; err := err s; newPlatform := newPlatform s;
     newHandle := newHandle s |}.
Definition setSources (v : list Source) (s : State) : State :=
  {| tab := tab s; me := me s; cfg := cfg s; sources := v;
     posts := posts s; stats := stats s; logs := logs s; runAuto := runAuto s;
     runLoading := runLoading s; err := err s; newPlatform := newPlatform s;
     newHandle := newHandle s |}.
Definition setPosts (v : list Candidate) (s : State) : State :=
  {| tab := tab s; me := me s; cfg := cfg s; sources := sources s;
     posts := v; stats := stats s; logs := logs s; runAuto := runAuto s;
     runLoading := runLoading s; err := err s; newPlatform := newPlatform s;
     newHandle := newHandle s |}.
Definition setStats (v : option Stats) (s : State) : State :=
  {| tab := tab s; me := me s; cfg := cfg s; sources := sources s;
     posts := posts s; stats := v; logs := logs s; runAuto := runAuto s;
     runLoading := runLoading s; err := err s; newPlatform := newPlatform s;
     newHandle := newHandle s |}.
Definition setLogs (v : list LogEvent) (s : State) : State :=
  {| tab := tab s; me := me s; cfg := cfg s; sources := sources s;
     posts := posts s; stats := stats s; logs := v; runAuto := runAuto s;
     runLoading := runLoading s; err := err s; newPlatform := newPlatform s;
     newHandle := newHandle s |}.
Definition setRunAuto (v : bool) (s : State) : State :=
  {| tab := tab s; me := me s; cfg := cfg s; sources := sources s;
     posts := posts s; stats := stats s; logs := logs s; runAuto := v;
     runLoading := runLoading s; err := err s; newPlatform := newPlatform s;
     newHandle := newHandle s |}.
Definition setRunLoading (v : bool) (s : State) : State :=
  {| tab := tab s; me := me s; cfg := cfg s; sources := sources s;
     posts := posts s; stats := stats s; logs := logs s; runAuto := runAuto s;
     runLoading := v; err := err s; newPlatform := newPlatform s;
     newHandle := newHandle s |}.
Definition setErr (v : option string) (s : State) : State :=
  {| tab := tab s; me := me s; cfg := cfg s; sources := sources s;
     posts := posts s; stats := stats s; logs := logs s; runAuto := runAuto s;
     runLoading := runLoading s; err := v; newPlatform := newPlatform s;
     newHandle := newHandle s |}.
Definition setNewPlatform (v : Platform) (s : State) : State :=
  {| tab := tab s; me := me s; cfg := cfg s; sources := sources s;
     posts := posts s; stats := stats s; logs := logs s; runAuto := runAuto s;
     runLoading := runLoading s; err := err s; newPlatform := v;
     newHandle := newHandle s |}.
Definition setNewHandle (v : string) (s : State) : State :=
  {| tab := tab s; me := me s; cfg := cfg s; sources := sources s;
     posts := posts s; stats := stats s; logs := logs s; runAuto := runAuto s;
     runLoading := runLoading s; err := err s; newPlatform := newPlatform s;
     newHandle := v |}.

(** ** Asynchronous functions *)

(** What a handler does between two suspension points. *)
Inductive Action :=
| set_state (f : State → State)
| storage (f : Env → Env)
| router_replace (href : string).

(** An [async] function body: it returns, throws, acts, or awaits a promise
    and goes on with the way the promise settled.  The promise is created
    from the environment of that moment ([apiFetch] reads the token). *)
Inductive Async (A : Type) : Type :=
| Ret (a : A)
| Throw (e : JsError)
| Act (x : Action) (k : Async A)
| Await {T : Type} (p : Env → Promise T) (k : Outcome T → Async A).
Arguments Ret {A} a.
Arguments Throw {A} e.
Arguments Act {A} x k.
Arguments Await {A T} p k.

Fixpoint bind {A B} (m : Async A) (f : A → Async B) : Async B :=
  match m with
  | Ret a => f a
  | Throw e => Throw e
  | Act x k => Act x (bind k f)
  | Await p k => Await p (λ o, bind (k o) f)
  end.

#[global] Instance Async_ret : MRet Async := @Ret.
#[global] Instance Async_bind : MBind Async := λ A B f m, bind m f.

(** [try { m } catch (e) { h e }] *)
Fixpoint try_catch {A} (m : Async A) (h : JsError → Async A) : Async A :=
  match m with
  | Ret a => Ret a
  | Throw e => h e
  | Act x k => Act x (try_catch k h)
  | Await p k => Await p (λ o, try_catch (k o) h)
  end.

(** [try { m } finally { f }] *)
Fixpoint finally {A} (m : Async A) (f : Async unit) : Async A :=
  match m with
  | Ret a => bind f (λ _, Ret a)
  | Throw e => bind f (λ _, Throw e)
  | Act x k => Act x (finally k f)
  | Await p k => Await p (λ o, finally (k o) f)
  end.

(** [await p] *)
Definition await {T} (p : Env → Promise T) : Async T :=
  Await p (λ o, match o with Fulfilled v => Ret v | Rejected e => Throw e end).

Definition set (f : State → State) : Async unit := Act (set_state f) (Ret ()).
Definition store (f : Env → Env) : Async unit := Act (storage f) (Ret ()).
Definition replace (href : string) : Async unit :=
  Act (router_replace href) (Ret ()).

(** ** The handlers of [DashboardPage] *)

(** The [Promise.all([...])] of [loadAll]: five calls started together. *)
Definition load_batch (env : Env)
  : Promise (Config * (list Source * (Stats * (list LogEvent * list Candidate)))) :=
  Promise_all5
    (apiFetch TConfig "/api/config" no_init env)
    (apiFetch TSources "/api/sources" no_init env)
    (apiFetch TStats "/api/stats" no_init env)
    (apiFetch TLogs "/api/logs" no_init env)
    (apiFetch TPosts "/api/posts" no_init env).

(** The [Promise.all([...])] of the polling callback. *)
Definition poll_batch (env : Env)
  : Promise (list LogEvent * (list Candidate * Stats)) :=
  Promise_all3
    (apiFetch TLogs "/api/logs" no_init env)
    (apiFetch TPosts "/api/posts" no_init env)
    (apiFetch TStats "/api/stats" no_init env).

Definition loadAll : Async unit :=
  set (setErr None);;
  try_catch
    (m ← await (apiFetch TMe "/me" no_init);
     set (setMe (Some {| email := email m;
                         workspace_name := workspace_name m |}));;
     '(c, (s, (st, (l, p)))) ← await load_batch;
     set (setCfg (Some c));; set (setSources s);; set (setStats (Some st));;
     set (setLogs l);; set (setPosts p);;
     set (setRunAuto (negb (approval_required c))))
    (λ e,
       set (setErr (Some (errText e)));;
       store clearToken;;
       replace "/login").

(** The callback of [setInterval]. *)
Definition poll : Async unit :=
  try_catch
    ('(l, (p, st)) ← await poll_batch;
     set (setLogs l);; set (setPosts p);; set (setStats (Some st)))
    (λ _, Ret ()).

(** The period handed to [setInterval], in milliseconds. *)
Definition poll_period : Z := 4000.

(** A handler reads the state of the render it was created in: [s]. *)
Definition saveConfig (s : State) : Async unit :=
  match cfg s with
  | None => Ret ()
  | Some c =>
      set (setErr None);;
      try_catch
        (saved ← await (apiFetch TConfig "/api/config"
                          (POST (json_of_config c)));
         set (setCfg (Some saved));;
         set (setRunAuto (negb (approval_required saved))))
        (λ e, set (setErr (Some (errText e))))
  end.

Definition addSource (s : State) : Async unit :=
  set (setErr None);;
  try_catch
    (_ ← await (apiFetch TSource "/api/sources"
                  (POST (JObj [ ("platform", json_of_platform (newPlatform s));
                                ("handle", JStr (newHandle s));
                                ("enabled", JBool true) ])));
     set (setNewHandle "");;
     srcs ← await (apiFetch TSources "/api/sources" no_init);
     set (setSources srcs))
    (λ e, set (setErr (Some (errText e)))).

Definition runNow (s : State) : Async unit :=
  set (setErr None);;
  set (setRunLoading true);;
  finally
    (try_catch
       (_ ← await (apiFetch TEnqueued "/api/run"
                     (POST (JObj [ ("auto_publish", JBool (runAuto s)) ])));
        set (setTab tab_logs))
       (λ e, set (setErr (Some (errText e)))))
    (set (setRunLoading false)).

Definition approve (id : Z) : Async unit :=
  set (setErr None);;
  try_catch
    (_ ← await (apiFetch TUnknown ("/api/posts/" +:+ pretty id +:+ "/approve")
                  (POST (JObj [])));
     p ← await (apiFetch TPosts "/api/posts" no_init);
     set (setPosts p))
    (λ e, set (setErr (Some (errText e)))).

Definition clearLogs : Async unit :=
  _ ← await (apiFetch TUnknown "/api/logs/clear" (POST (JObj [])));
  l ← await (apiFetch TLogs "/api/logs" no_init);
  set (setLogs l).

Definition logout : Async unit :=
  store clearToken;;
  replace "/login".

(** ** The page in its browser: event loop *)

(** An [await] in flight: the promise, the number of its first request, and
    the rest of the handler. *)
Record Suspended := {
  awaited_type : Type;
  first : nat;
  promise : Promise awaited_type;
  continuation : Outcome awaited_type → Async unit;
}.

Record World := {
  ui : State;                   (* the React state of the page *)
  env : Env;                    (* localStorage and configuration *)
  location : list string;       (* hrefs passed to router.replace *)
  interval : option Z;          (* period of the polling timer, if set *)
  sent : list Request;          (* every request sent so far *)
  suspended : list Suspended;   (* awaits in flight *)
  unhandled : list JsError;     (* rejections no handler caught *)
}.

Definition perform (x : Action) (w : World) : World :=
  match x with
  | set_state f =>
      {| ui := f (ui w); env := env w; location := location w;
         interval := interval w; sent := sent w; suspended := suspended w;
         unhandled := unhandled w |}
  | storage f =>
      {| ui := ui w; env := f (env w); location := location w;
         interval := interval w; sent := sent w; suspended := suspended w;
         unhandled := unhandled w |}
  | router_replace href =>
      {| ui := ui w; env := env w; location := location w ++ [href];
         interval := interval w; sent := sent w; suspended := suspended w;
         unhandled := unhandled w |}
  end.

Definition send (rs : list Request) (w : World) : World :=
  {| ui := ui w; env := env w; location := location w;
     interval := interval w; sent := sent w ++ rs; suspended := suspended w;
     unhandled := unhandled w |}.

Definition suspend (s : Suspended) (w : World) : World :=
  {| ui := ui w; env := env w; location := location w;
     interval := interval w; sent := sent w;
     suspended := suspended w ++ [s]; unhandled := unhandled w |}.

Definition forget (i : nat) (w : World) : World :=
  {| ui := ui w; env := env w; location := location w;
     interval := interval w; sent := sent w;
     suspended := delete i (suspended w); unhandled := unhandled w |}.

Definition uncaught (e : JsError) (w : World) : World :=
  {| ui := ui w; env := env w; location := location w;
     interval := interval w; sent := sent w; suspended := suspended w;
     unhandled := unhandled w ++ [e] |}.

Definition set_interval (o : option Z) (w : World) : World :=
  {| ui := ui w; env := env w; location := location w;
     interval := o; sent := sent w; suspended := suspended w;
     unhandled := unhandled w |}.

(** Run a handler up to its next suspension point: its actions take effect,
    and at an [await] the promise is created (its requests leave) and the
    rest of the handler is parked. *)
Fixpoint exec (m : Async unit) (w : World) : World :=
  match m with
  | Ret _ => w
  | Throw e => uncaught e w
  | Act x k => exec k (perform x w)
  | Await p k =>
      let pr := p (env w) in
      suspend {| first := length (sent w); promise := pr; continuation := k |}
        (send (issue pr) w)
  end.

(** The [i]-th parked handler goes on with the way its promise settled. *)
Definition resume (net : Net) (i : nat) (w : World) : World :=
  match suspended w !! i with
  | None => w
  | Some s =>
      exec (continuation s (settle net (first s) (promise s)).2) (forget i w)
  end.

(** Run a handler to its end with nothing else happening in between. *)
Fixpoint run (net : Net) (m : Async unit) (w : World) : World :=
  match m with
  | Ret _ => w
  | Throw e => uncaught e w
  | Act x k => run net k (perform x w)
  | Await p k =>
      let pr := p (env w) in
      run net (k (settle net (length (sent w)) pr).2) (send (issue pr) w)
  end.

(** The edits of the settings form: [setCfg({...cfg, field: value})]. *)
Inductive CfgEdit :=
| edit_approval_required (v : bool)
| edit_interval_days (v : Z)
| edit_max_candidates (v : Z)
| edit_pick_top_n (v : Z).

Definition apply_edit (e : CfgEdit) (c : Config) : Config :=
  match e with
  | edit_approval_required v =>
      {| approval_required := v; interval_days := interval_days c;
         max_candidates := max_candidates c; pick_top_n := pick_top_n c |}
  | edit_interval_days v =>
      {| approval_required := approval_required c; interval_days := v;
         max_candidates := max_candidates c; pick_top_n := pick_top_n c |}
  | edit_max_candidates v =>
      {| approval_required := approval_required c;
         interval_days := interval_days c;
         max_candidates := v; pick_top_n := pick_top_n c |}
  | edit_pick_top_n v =>
      {| approval_required := approval_required c;
         interval_days := interval_days c;
         max_candidates := max_candidates c; pick_top_n := v |}
  end.

(** What can happen to the page. *)
Inductive Event :=
| Mount                          (* both effects run *)
| Unmount                        (* the cleanup of the polling effect *)
| Tick                           (* the interval fires *)
| Resume (i : nat)               (* an awaited promise settles *)
| OnTab (t : Tab)                (* a tab button *)
| OnMode (auto : bool)           (* the Mode select of the overview *)
| OnCfg (e : CfgEdit)            (* a field of the settings form *)
| OnNewPlatform (p : Platform)
| OnNewHandle (h : string)
| OnSaveConfig
| OnAddSource
| OnRunNow
| OnApprove (id : Z)
| OnClearLogs
| OnLogout.

Definition step (net : Net) (ev : Event) (w : World) : World :=
  match ev with
  | Mount => set_interval (Some poll_period) (exec loadAll w)
  | Unmount => set_interval None w
  | Tick =>
      match interval w with
      | Some _ => exec poll w
      | None => w
      end
  | Resume i => resume net i w
  | OnTab t => exec (set (setTab t)) w
  | OnMode auto => exec (set (setRunAuto auto)) w
  | OnCfg e =>
      match cfg (ui w) with
      | Some c => exec (set (setCfg (Some (apply_edit e c)))) w
      | None => w
      end
  | OnNewPlatform p => exec (set (setNewPlatform p)) w
  | OnNewHandle h => exec (set (setNewHandle h)) w
  | OnSaveConfig => exec (saveConfig (ui w)) w
  | OnAddSource => exec (addSource (ui w)) w
  | OnRunNow => exec (runNow (ui w)) w
  | OnApprove id => exec (approve id) w
  | OnClearLogs => exec clearLogs w
  | OnLogout => exec logout w
  end.

Definition steps (net : Net) (evs : list Event) (w : World) : World :=
  foldl (λ w ev, step net ev w) w evs.

(** ** Rendering: what the page derives from its state *)

(** [posts.filter(p => p.status === "awaiting_approval")] *)
Definition pending (posts : list Candidate) : list Candidate :=
  filter (λ p, status p = "awaiting_approval") posts.

(** The text of the manual approvals card:
    [pending.length ? `You have ${pending.length} posts waiting.` : ...]. *)
Definition pending_text (s : State) : string :=
  let n := length (pending (posts s)) in
  if decide (n = 0%nat) then "No pending approvals."
  else "You have " +:+ pretty n +:+ " posts waiting.".

(** A button: its label, whether it is disabled, and what a click runs. *)
Record Button := {
  label : string;
  disabled : bool;
  onClick : Event;
}.

(** One card of the queue tab: the badges and, where the page renders it,
    the approve button. *)
Record QueueCard := {
  key : Z;
  badges : list string;
  action : option Button;
}.

Definition platform_text (p : Platform) : string :=
  match p with
  | instagram => "instagram"
  | facebook => "facebook"
  end.

Definition queue_card (p : Candidate) : QueueCard :=
  {| key := id p;
     badges := [ platform_text (platform p); media_type p; status p;
                 "score: " +:+ pretty (engagement_score p) ];
     action :=
       if decide (status p = "awaiting_approval")
       then Some {| label := "Approve & publish"; disabled := false;
                    onClick := OnApprove (id p) |}
       else None |}.

(** The queue tab is rendered only when selected. *)
Definition queue_tab (s : State) : list QueueCard :=
  match tab s with
  | tab_queue => queue_card <$> posts s
  | _ => []
  end.

(** The run button of the overview. *)
Definition run_button (s : State) : Button :=
  {| label := if runLoading s then "Enqueuing..." else "Run now";
     disabled := runLoading s;
     onClick := OnRunNow |}.

(** ** What a handler leaves alone *)

(** [untouched π m]: no [setState] of [m], on any path, changes the part
    [π] of the page state. *)
Fixpoint untouched {X A} (π : State → X) (m : Async A) : Prop :=
  match m with
  | Ret _ | Throw _ => True
  | Act x k =>
      match x with
      | set_state f => ∀ s, π (f s) = π s
      | _ => True
      end ∧ untouched π k
  | Await _ k => ∀ o, untouched π (k o)
  end.

(** The same of a parked handler, and of all of them. *)
Definition quiet {X} (π : State → X) (s : Suspended) : Prop :=
  ∀ o, untouched π (continuation s o).

Definition all_quiet {X} (π : State → X) (w : World) : Prop :=
  Forall (quiet π) (suspended w).

(** The events that start a load or a save of the Config. *)
Definition resets_mode (ev : Event) : bool :=
  match ev with
  | Mount | OnSaveConfig => true
  | _ => false
  end.

(** The events that start, or are, a change of the part named. *)

Definition touches_cfg (ev : Event) : bool :=
  match ev with
  | Mount | OnSaveConfig | OnCfg _ => true
  | _ => false
  end.

Definition touches_sources (ev : Event) : bool :=
  match ev with
  | Mount | OnAddSource => true
  | _ => false
  end.

(** The mode the operator chose last in a run of events, [v] if none. *)
Definition last_mode (v : bool) (evs : list Event) : bool :=
  foldl (λ v ev, match ev with OnMode a => a | _ => v end) v evs.


(** Unfold a handler and its run, leaving the network symbolic. *)
Ltac go :=
  cbn -[apiFetch_settle apiFetch_request denote settle load_batch poll_batch
        apiFetch].

(** The same, down to the single calls. *)
Ltac go1 := cbn -[apiFetch_settle apiFetch_request denote].

(** Settle goals of the form [untouched π handler]. *)
Ltac frame :=
  repeat match goal with
  | |- untouched _ (saveConfig _) => unfold saveConfig
  | |- untouched _ _ => progress simpl
  | |- _ ∧ _ => split
  | |- True => exact I
  | |- ∀ o : Outcome _, _ => intros [?|?]
  | |- ∀ s : State, _ => intros ?; reflexivity
  | |- context [let '(_, _) := ?x in _] => destruct x
  | |- context [match ?x with Some _ => _ | None => _ end] => destruct x
  end.

(** ** The rest of the dashboard, the home page and the login page *)

(** The error card of the dashboard: [{err ? <Card>{err}</Card> : null}].
    An empty string is falsy, so it shows nothing. *)
Definition err_banner (s : State) : option string :=
  match err s with
  | Some m => if decide (m = "") then None else Some m
  | None => None
  end.

(** The home page ([app/page.tsx]): where its effect sends the browser,
    [r.replace(t ? "/dashboard" : "/login")] with [t = getToken()]. *)
Definition Home (env : Env) : string :=
  match getToken env with
  | Some t => if decide (t = "") then "/login" else "/dashboard"
  | None => "/login"
  end.

(** The login page: its state, and what [onSubmit] does before and after
    its one [await]. *)
Record LoginResult := { token : string }.

Record LoginPage := {
  form_email : string;
  form_password : string;
  form_err : option string;
  loading : bool;
}.

Definition initial_login : LoginPage :=
  {| form_email := "admin@example.com"; form_password := "admin1234";
     form_err := None; loading := false |}.

Record LoginWorld := {
  form : LoginPage;             (* the React state of the login page *)
  login_env : Env;              (* localStorage and configuration *)
  pushed : list string;         (* hrefs passed to router.push *)
  login_sent : list Request;    (* requests sent so far *)
}.

(** The request of [onSubmit], built from the fields of the form. *)
Definition login_request (w : LoginWorld) : Request :=
  apiFetch_request (login_env w) "/auth/login"
    (POST (JObj [ ("email", JStr (form_email (form w)));
                  ("password", JStr (form_password (form w))) ])).

(** [onSubmit] up to its [await]: [setErr(null); setLoading(true)] and the
    call of [apiFetch]. *)
Definition onSubmit_call (w : LoginWorld) : LoginWorld :=
  {| form := {| form_email := form_email (form w);
                form_password := form_password (form w);
                form_err := None; loading := true |};
     login_env := login_env w; pushed := pushed w;
     login_sent := login_sent w ++ [login_request w] |}.

(** [onSubmit] from the moment [fetch] has settled with [r]: the rest of the
    [try], the [catch] and the [finally]. *)
Definition onSubmit_settled (r : Outcome (Response LoginResult))
    (w : LoginWorld) : LoginWorld :=
  match apiFetch_settle r with
  | Fulfilled res =>
      {| form := {| form_email := form_email (form w);
                    form_password := form_password (form w);
                    form_err := form_err (form w); loading := false |};
         login_env := setToken (token res) (login_env w);
         pushed := pushed w ++ ["/dashboard"];
         login_sent := login_sent w |}
  | Rejected e =>
      {| form := {| form_email := form_email (form w);
                    form_password := form_password (form w);
                    form_err := Some (errText e); loading := false |};
         login_env := login_env w; pushed := pushed w;
         login_sent := login_sent w |}
  end.

Definition onSubmit (r : Outcome (Response LoginResult)) (w : LoginWorld)
  : LoginWorld :=
  onSubmit_settled r (onSubmit_call w).

(** ** What the page does on every path *)

(** The Authorization header [apiFetch] sets for a stored token: none for a
    missing or empty one. *)
Definition bearer (tk : option string) : option string :=
  match tk with
  | Some t => if decide (t = "") then None else Some ("Bearer " +:+ t)
  | None => None
  end.

(** A request as [apiFetch] builds it in the environment [env] when its
    caller passes no headers. *)
Definition gateway_request (env : Env) (r : Request) : Prop :=
  headers r !! "Content-Type" = Some "application/json" ∧
  headers r !! "Authorization" = bearer (getToken env) ∧
  cache r = "no-store" ∧
  ∃ path, url r = API_URL env +:+ path.

(** An action that keeps the address of the service, never writes a token
    (it keeps or removes the stored one) and navigates to the login page
    only. *)
Definition tame (x : Action) : Prop :=
  match x with
  | set_state _ => True
  | storage f =>
      ∀ e, API_URL (f e) = API_URL e ∧
           (getToken (f e) = getToken e ∨ getToken (f e) = None)
  | router_replace href => href = "/login"
  end.

(** [disciplined m]: on every path of [m], the actions are tame and the
    requests are gateway requests. *)
Fixpoint disciplined {A} (m : Async A) : Prop :=
  match m with
  | Ret _ | Throw _ => True
  | Act x k => tame x ∧ disciplined k
  | Await p k =>
      (∀ env, Forall (gateway_request env) (issue (p env))) ∧
      ∀ o, disciplined (k o)
  end.

(** A request of a page whose service is at [b] and whose token was [tk]
    when it opened. *)
Definition page_request (b : string) (tk : option string) (r : Request)
  : Prop :=
  headers r !! "Content-Type" = Some "application/json" ∧
  cache r = "no-store" ∧
  (∃ path, url r = b +:+ path) ∧
  (headers r !! "Authorization" = bearer tk ∨
   headers r !! "Authorization" = None).

(** What holds of the page [w] since it was in the world [w0]. *)
Definition kept (w0 w : World) : Prop :=
  API_URL (env w) = API_URL (env w0) ∧
  (getToken (env w) = getToken (env w0) ∨ getToken (env w) = None) ∧
  (∃ new, sent w = sent w0 ++ new ∧
          Forall (page_request (API_URL (env w0)) (getToken (env w0))) new) ∧
  (∃ new, location w = location w0 ++ new ∧ Forall (λ h, h = "/login") new) ∧
  Forall (λ s, ∀ o, disciplined (continuation s o)) (suspended w).

(** The event that sets the polling timer. *)
Definition starts_timer (ev : Event) : bool :=
  match ev with
  | Mount => true
  | _ => false
  end.

(** Settle goals of the form [disciplined handler]. *)
Ltac discipline lem :=
  repeat match goal with
  | |- disciplined (saveConfig _) => unfold saveConfig
  | |- disciplined _ => progress simpl
  | |- _ ∧ _ => split
  | |- True => exact I
  | |- ∀ o : Outcome _, _ => intros [?|?]
  | |- ∀ e : Env, Forall _ _ => intros ?; repeat constructor; apply lem; reflexivity
  | |- ∀ e : Env, _ ∧ _ => intros ?
  | |- context [let '(_, _) := ?x in _] => destruct x
  | |- context [match ?x with Some _ => _ | None => _ end] => destruct x
  end.

(** ** Sample data: a browser, a page, and a few remote services *)

Definition env0 : Env :=
  {| NEXT_PUBLIC_API_URL := None;
     localStorage := Some {[ "token" := "secret" ]} |}.

Definition candidate (i : Z) (st : string) : Candidate :=
  {| id := i; platform := instagram;
     original_url := "https://example.com/p"; caption_raw := None;
     media_type := "image"; media_url := None; posted_at_source := None;
     engagement_score := 0; status := st;
     created_at := "2024-01-01T00:00:00Z"; generated := None |}.

Definition ten_candidates : list Candidate :=
  [ candidate 1 "new"; candidate 2 "awaiting_approval";
    candidate 3 "selected"; candidate 4 "generated";
    candidate 5 "awaiting_approval"; candidate 6 "approved";
    candidate 7 "published"; candidate 8 "awaiting_approval";
    candidate 9 "published"; candidate 10 "new" ].

Definition manual_config : Config :=
  {| approval_required := true; interval_days := 1; max_candidates := 20;
     pick_top_n := 5 |}.

Definition auto_config : Config :=
  {| approval_required := false; interval_days := 1; max_candidates := 20;
     pick_top_n := 5 |}.

Definition a_log : LogEvent :=
  {| log_id := 1; level := "info"; log_message := "job started";
     job_id := Some 7; log_created_at := "2024-01-01T00:00:00Z" |}.

(** A page that has loaded, with candidate 42 waiting for approval. *)
Definition loaded_state : State :=
  {| tab := tab_queue;
     me := Some {| email := "admin@example.com"; workspace_name := "main" |};
     cfg := Some manual_config; sources := [];
     posts := [candidate 42 "awaiting_approval"];
     stats := None; logs := [a_log]; runAuto := false; runLoading := false;
     err := None; newPlatform := instagram; newHandle := "" |}.

Definition world_of (s : State) : World :=
  {| ui := s; env := env0; location := []; interval := None; sent := [];
     suspended := []; unhandled := [] |}.

Definition w0 : World := world_of initial_state.
Definition w1 : World := world_of loaded_state.

Definition reply {T} (st : Z) (txt : string) (v : Outcome T) : Arrival T :=
  {| at_time := 0;
     result := Fulfilled {| res_status := st; res_text := Fulfilled txt;
                            res_json := v |} |}.

Definition not_json : JsError :=
  {| name := "SyntaxError"; message := "Unexpected token" |}.

(** The answers of a service in good health: candidate 42 is published. *)
Definition answer (t : ty) : denote t :=
  match t with
  | TMe => {| email := "admin@example.com"; workspace_name := "main" |}
  | TConfig => auto_config
  | TSources => []
  | TSource =>
      {| source_id := 1; source_platform := instagram; handle := "natgeo";
         enabled := true; source_created_at := "2024-01-01T00:00:00Z" |}
  | TStats =>
      {| total_candidates := 1; total_published := 1; pending_approval := 0;
         last_run_at := None |}
  | TLogs => []
  | TPosts => [candidate 42 "published"]
  | TEnqueued => {| enqueued_job_id := 7 |}
  | TUnknown => ()
  end.

Definition healthy : Net := λ t _ _, reply 200 "ok" (Fulfilled (answer t)).

(** A service that answers every request with status [st] and body [txt]. *)
Definition answering (st : Z) (txt : string) : Net :=
  λ t _ _, reply st txt (Rejected not_json).

(** A service in good health except at one address, where it answers with
    status [st] and body [txt]. *)
Definition failing_at (address : string) (st : Z) (txt : string) : Net :=
  λ t _ req,
    if decide (url req = address) then reply st txt (Rejected not_json)
    else reply 200 "ok" (Fulfilled (answer t)).

(** * Properties *)

(** ** The interpreter *)

Section Interpreter.
Context (net : Net).

Lemma exec_interval m w : interval (exec m w) = interval w.
Proof.
  revert w; induction m as [a|e|x k IH|T p k IH]; intros w; simpl; try done.
  rewrite IH. by destruct x.
Qed.

Lemma resume_interval i w : interval (resume net i w) = interval w.
Proof.
  unfold resume. destruct (suspended w !! i); [|done].
  by rewrite exec_interval.
Qed.

Lemma run_interval m w : interval (run net m w) = interval w.
Proof.
  revert w; induction m as [a|e|x k IH|T p k IH]; intros w; simpl; try done.
  - rewrite IH. by destruct x.
  - by rewrite IH.
Qed.

Lemma forget_suspend s w :
  forget (length (suspended w)) (suspend s w) = w.
Proof.
  destruct w as [u e l i sn sp un]; unfold forget, suspend; simpl.
  f_equal. induction sp as [|x sp IH]; simpl; [done|by f_equal].
Qed.

(** Resuming a handler as soon as it is parked, until it is done, is
    [run]: the uninterrupted run is one schedule of the event loop. *)
Lemma run_is_a_schedule m w :
  ∃ n, Nat.iter n (resume net (length (suspended w))) (exec m w)
       = run net m w.
Proof.
  revert w; induction m as [a|e|x k IH|T p k IH]; intros w; simpl.
  - by exists 0%nat.
  - by exists 0%nat.
  - destruct (IH (perform x w)) as [n Hn]. exists n.
    rewrite <- Hn. by destruct x.
  - set (pr := p (env w)).
    set (s := {| first := length (sent w); promise := pr; continuation := k |}).
    destruct (IH (settle net (length (sent w)) pr).2 (send (issue pr) w))
      as [n Hn].
    exists (S n). rewrite Nat.iter_succ_r.
    rewrite <- Hn. f_equal.
    unfold resume.
    change (suspended (suspend s (send (issue pr) w)))
      with (suspended (send (issue pr) w) ++ [s]).
    change (suspended (send (issue pr) w)) with (suspended w).
    rewrite lookup_app_r, Nat.sub_diag by done. simpl.
    f_equal.
    change (length (suspended w))
      with (length (suspended (send (issue pr) w))).
    apply forget_suspend.
Qed.

(** *** Frames *)

Section Frames.
Context {X : Type} (π : State → X).

Lemma untouched_bind {A B} (m : Async A) (f : A → Async B) :
  untouched π m → (∀ a, untouched π (f a)) → untouched π (bind m f).
Proof.
  intros Hm Hf; induction m as [a|e|x k IH|T p k IH]; simpl in *; auto.
  destruct Hm; auto.
Qed.

Lemma untouched_try_catch {A} (m : Async A) h :
  untouched π m → (∀ e, untouched π (h e)) → untouched π (try_catch m h).
Proof.
  intros Hm Hh; induction m as [a|e|x k IH|T p k IH]; simpl in *; auto.
  destruct Hm; auto.
Qed.

Lemma untouched_finally {A} (m : Async A) f :
  untouched π m → untouched π f → untouched π (finally m f).
Proof.
  intros Hm Hf; induction m as [a|e|x k IH|T p k IH]; simpl in *.
  - apply untouched_bind; [done|]. by intros.
  - apply untouched_bind; [done|]. by intros.
  - destruct Hm; auto.
  - auto.
Qed.

Lemma untouched_await {T} (p : Env → Promise T) : untouched π (await p).
Proof. intros [v|e]; exact I. Qed.

Lemma untouched_set f : (∀ s, π (f s) = π s) → untouched π (set f).
Proof. intros Hf; split; [exact Hf|exact I]. Qed.

Lemma untouched_exec m w :
  untouched π m → all_quiet π w →
  π (ui (exec m w)) = π (ui w) ∧ all_quiet π (exec m w).
Proof.
  revert w; induction m as [a|e|x k IH|T p k IH]; intros w Hm Hw; simpl.
  - done.
  - done.
  - destruct Hm as [Hx Hk].
    destruct (IH (perform x w) Hk) as [E Q].
    + by destruct x.
    + split; [|done]. rewrite E. destruct x; simpl; auto.
  - split; [done|].
    unfold all_quiet; simpl. apply Forall_app; split; [done|].
    apply Forall_singleton. exact Hm.
Qed.

Lemma untouched_resume i w :
  all_quiet π w →
  π (ui (resume net i w)) = π (ui w) ∧ all_quiet π (resume net i w).
Proof.
  intros Hw. unfold resume.
  destruct (suspended w !! i) as [s|] eqn:Hs; [|done].
  assert (quiet π s) as Hq.
  { eapply Forall_lookup_1 in Hw; eauto. }
  apply (untouched_exec _ (forget i w)); [apply Hq|].
  unfold all_quiet; simpl. by apply Forall_delete.
Qed.

Lemma untouched_run m w :
  untouched π m → π (ui (run net m w)) = π (ui w).
Proof.
  revert w; induction m as [a|e|x k IH|T p k IH]; intros w Hm; simpl.
  - done.
  - done.
  - destruct Hm as [Hx Hk]. rewrite (IH _ Hk). destruct x; simpl; auto.
  - by rewrite IH.
Qed.
End Frames.
End Interpreter.

(** ** Promises *)

Section Promises.
Context (net : Net).

Lemma settle_apiFetch n t path init env :
  (settle net n (apiFetch t path init env)).2
  = apiFetch_settle (result (net t n (apiFetch_request env path init))).
Proof. reflexivity. Qed.

(** [Promise.all] is fulfilled exactly when both sides are. *)
Lemma settle_all_fulfilled {A B} n (p : Promise A) (q : Promise B) a b :
  (settle net n (Promise_all p q)).2 = Fulfilled (a, b) ↔
  (settle net n p).2 = Fulfilled a ∧
  (settle net (n + length (issue p)) q).2 = Fulfilled b.
Proof.
  simpl. destruct (settle net n p) as [tp [va|ea]];
    destruct (settle net (n + length (issue p)) q) as [tq [vb|eb]]; simpl;
    try destruct (bool_decide _); simpl;
    intuition congruence.
Qed.

(** It is rejected exactly when a side is, with the error of a side. *)
Lemma settle_all_rejected {A B} n (p : Promise A) (q : Promise B) e :
  (settle net n (Promise_all p q)).2 = Rejected e →
  (settle net n p).2 = Rejected e ∨
  (settle net (n + length (issue p)) q).2 = Rejected e.
Proof.
  simpl. destruct (settle net n p) as [tp [va|ea]];
    destruct (settle net (n + length (issue p)) q) as [tq [vb|eb]]; simpl;
    try destruct (bool_decide _); simpl;
    intuition congruence.
Qed.

Lemma settle_all_rejects_l {A B} n (p : Promise A) (q : Promise B) e :
  (settle net n p).2 = Rejected e →
  ∃ e', (settle net n (Promise_all p q)).2 = Rejected e'.
Proof.
  simpl. destruct (settle net n p) as [tp [va|ea]];
    destruct (settle net (n + length (issue p)) q) as [tq [vb|eb]]; simpl;
    try destruct (bool_decide _); simpl;
    intros; simplify_eq; eauto.
Qed.

Lemma settle_all_rejects_r {A B} n (p : Promise A) (q : Promise B) e :
  (settle net (n + length (issue p)) q).2 = Rejected e →
  ∃ e', (settle net n (Promise_all p q)).2 = Rejected e'.
Proof.
  simpl. destruct (settle net n p) as [tp [va|ea]];
    destruct (settle net (n + length (issue p)) q) as [tq [vb|eb]]; simpl;
    try destruct (bool_decide _); simpl;
    intros; simplify_eq; eauto.
Qed.
End Promises.

(** ** The API gateway client *)

(** C1, as the code has it.  A response whose status is outside 200-299
    makes the call fail, whatever the status: the rejection is a plain
    [Error] whose message is the text of the body, or [HTTP <status>] when
    the body is empty.  A 401 or 403 is not told apart from any other
    failure, and one request is sent per call. *)
Theorem apiFetch_rejects_non_success
    (net : Net) (n : nat) (env : Env) (t : ty) (path : string)
    (init : RequestInit) (res : Response (denote t)) (txt : string) :
  result (net t n (apiFetch_request env path init)) = Fulfilled res →
  ¬ (200 ≤ res_status res ≤ 299) →
  res_text res = Fulfilled txt →
  issue (apiFetch t path init env) = [apiFetch_request env path init] ∧
  (settle net n (apiFetch t path init env)).2 =
    Rejected {| name := "Error";
                message := if decide (txt = "")
                           then "HTTP " +:+ pretty (res_status res)
                           else txt |}.
Proof.
  intros Hres Hst Htxt. split; [reflexivity|].
  rewrite settle_apiFetch, Hres. unfold apiFetch_settle, res_ok.
  rewrite bool_decide_eq_false_2 by done. simpl. by rewrite Htxt.
Qed.

Lemma apiFetch_rejects_non_success_witness :
  (settle (answering 403 "") 0 (apiFetch TMe "/me" no_init env0)).2
  = Rejected {| name := "Error"; message := "HTTP 403" |}.
Proof.
  apply (apiFetch_rejects_non_success (answering 403 "") 0 env0 TMe "/me"
           no_init
           {| res_status := 403; res_text := Fulfilled "";
              res_json := Rejected not_json |} "").
  - reflexivity.
  - simpl. lia.
  - reflexivity.
Defined.

(** C1, as the spec words it, fails: an unauthorized answer and a server
    error with the same body make the call fail in the very same way, so no
    caller can tell them apart, and the status is not in the error. *)
Lemma apiFetch_401_like_500 :
  (settle (answering 401 "denied") 0 (apiFetch TMe "/me" no_init env0)).2
  = Rejected {| name := "Error"; message := "denied" |} ∧
  (settle (answering 500 "denied") 0 (apiFetch TMe "/me" no_init env0)).2
  = Rejected {| name := "Error"; message := "denied" |}.
Proof. split; reflexivity. Qed.

(** ** Classifying candidates *)

(** C6.  The pending list holds exactly the candidates whose status is
    [awaiting_approval]: it is the list of posts with the others taken out
    (same order, same multiplicities), and the approvals card shows its
    length. *)
Theorem pending_exactly_awaiting (s : State) :
  (∀ p, p ∈ pending (posts s) ↔
        p ∈ posts s ∧ status p = "awaiting_approval") ∧
  pending (posts s) `sublist_of` posts s ∧
  pending (posts s) ++ filter (λ p, status p ≠ "awaiting_approval") (posts s)
    ≡ₚ posts s ∧
  pending_text s =
    if decide (length (pending (posts s)) = 0%nat)
    then "No pending approvals."
    else "You have " +:+ pretty (length (pending (posts s)))
         +:+ " posts waiting.".
Proof.
  unfold pending. split; [|split; [|split]].
  - intros p. rewrite list_elem_of_filter. tauto.
  - apply sublist_filter.
  - apply (filter_app_complement (λ p, status p = "awaiting_approval")).
  - reflexivity.
Qed.

(** The scenario of the spec: ten candidates, three of them awaiting
    approval. *)
Lemma pending_three_of_ten :
  length ten_candidates = 10%nat ∧
  id <$> pending ten_candidates = [2; 5; 8] ∧
  pending_text (setPosts ten_candidates initial_state)
  = "You have 3 posts waiting.".
Proof.
  split; [reflexivity|]. split; [reflexivity|].
  destruct (pending_exactly_awaiting (setPosts ten_candidates initial_state))
    as (_ & _ & _ & ->).
  reflexivity.
Defined.

(** ** The queue tab *)

(** C10.  Every card of the queue tab shows one of the posts, and carries an
    approve button exactly when that post's status is [awaiting_approval];
    the button then approves that post's id.  The operation itself takes any
    id: it sends the approve request whatever the posts are. *)
Theorem approve_offered_only_when_awaiting
    (net : Net) (w : World) (card : QueueCard) :
  card ∈ queue_tab (ui w) →
  (∃ p, p ∈ posts (ui w) ∧ key card = id p ∧
        (status p ≠ "awaiting_approval" → action card = None) ∧
        (status p = "awaiting_approval" →
           ∃ b, action card = Some b ∧ disabled b = false ∧
                onClick b = OnApprove (id p))) ∧
  (∀ i, sent (step net (OnApprove i) w)
        = sent w ++ [apiFetch_request (env w)
                       ("/api/posts/" +:+ pretty i +:+ "/approve")
                       (POST (JObj []))]).
Proof.
  intros Hcard. split; [|done].
  unfold queue_tab in Hcard.
  destruct (tab (ui w)); try by apply elem_of_nil in Hcard.
  apply list_elem_of_fmap in Hcard as (p & -> & Hp).
  exists p. split; [done|]. split; [done|]. unfold queue_card; simpl.
  split; intros Hst.
  - by rewrite decide_False.
  - rewrite decide_True by done. eauto.
Qed.

Lemma approve_offered_only_when_awaiting_witness :
  ∃ p, p ∈ posts (ui w1) ∧ key (queue_card (candidate 42 "awaiting_approval")) = id p ∧
       (status p ≠ "awaiting_approval" →
          action (queue_card (candidate 42 "awaiting_approval")) = None) ∧
       (status p = "awaiting_approval" →
          ∃ b, action (queue_card (candidate 42 "awaiting_approval")) = Some b ∧
               disabled b = false ∧ onClick b = OnApprove (id p)).
Proof.
  apply (approve_offered_only_when_awaiting healthy w1
           (queue_card (candidate 42 "awaiting_approval"))).
  simpl. apply list_elem_of_here.
Defined.

(** ** The handlers, run to their end *)

Section Handlers.
Context (net : Net).

Lemma getToken_clearToken e : getToken (clearToken e) = None.
Proof.
  unfold getToken, clearToken.
  destruct (localStorage e) as [ls|] eqn:E; simpl; [|by rewrite E].
  apply lookup_delete_eq.
Qed.


(** How the batch of the initial load settles, from its five calls. *)
Lemma load_batch_outcome (n : nat) (e : Env) :
  let get path := apiFetch_request e path no_init in
  let o1 := apiFetch_settle (result (net TConfig n (get "/api/config"))) in
  let o2 := apiFetch_settle (result (net TSources (1 + n)%nat (get "/api/sources"))) in
  let o3 := apiFetch_settle (result (net TStats (2 + n)%nat (get "/api/stats"))) in
  let o4 := apiFetch_settle (result (net TLogs (3 + n)%nat (get "/api/logs"))) in
  let o5 := apiFetch_settle (result (net TPosts (4 + n)%nat (get "/api/posts"))) in
  match o1, o2, o3, o4, o5 with
  | Fulfilled c, Fulfilled s, Fulfilled st, Fulfilled l, Fulfilled p =>
      (settle net n (load_batch e)).2 = Fulfilled (c, (s, (st, (l, p))))
  | _, _, _, _, _ =>
      ∃ x, (settle net n (load_batch e)).2 = Rejected x ∧
           Some x ∈ [rejection o1; rejection o2; rejection o3;
                     rejection o4; rejection o5]
  end.
Proof.
  unfold load_batch, Promise_all5.
  cbn -[apiFetch_settle apiFetch_request denote].
  rewrite !Nat.add_1_r.
  repeat match goal with
  | |- context [apiFetch_settle ?r] => destruct (apiFetch_settle r)
  end; simpl; repeat (destruct (bool_decide _); simpl);
    eauto 10 using list_elem_of_here, list_elem_of_further.
Qed.

Lemma loadAll_run (w : World) :
  let n := length (sent w) in
  let get path := apiFetch_request (env w) path no_init in
  let all := [ get "/me"; get "/api/config"; get "/api/sources";
               get "/api/stats"; get "/api/logs"; get "/api/posts" ] in
  match (settle net n (apiFetch TMe "/me" no_init (env w))).2 with
  | Rejected e =>
      run net loadAll w =
      {| ui := setErr (Some (errText e)) (setErr None (ui w));
         env := clearToken (env w); location := location w ++ ["/login"];
         interval := interval w; sent := sent w ++ [get "/me"];
         suspended := suspended w; unhandled := unhandled w |}
  | Fulfilled m =>
      let s1 := setMe (Some {| email := email m;
                               workspace_name := workspace_name m |})
                  (setErr None (ui w)) in
      match (settle net (S n) (load_batch (env w))).2 with
      | Rejected e =>
          run net loadAll w =
          {| ui := setErr (Some (errText e)) s1;
             env := clearToken (env w);
             location := location w ++ ["/login"];
             interval := interval w; sent := sent w ++ all;
             suspended := suspended w; unhandled := unhandled w |}
      | Fulfilled (c, (s, (st, (l, p)))) =>
          run net loadAll w =
          {| ui := setRunAuto (negb (approval_required c))
                     (setPosts p (setLogs l (setStats (Some st)
                        (setSources s (setCfg (Some c) s1)))));
             env := env w; location := location w;
             interval := interval w; sent := sent w ++ all;
             suspended := suspended w; unhandled := unhandled w |}
      end
  end.
Proof.
  intros n get all. unfold loadAll. go. fold n.
  destruct (settle net n (apiFetch TMe "/me" no_init (env w))).2 as [m|e].
  - go. rewrite length_app, Nat.add_1_r. fold n.
    destruct (settle net (S n) (load_batch (env w))).2
      as [(c & s & st & l & p)|e].
    + go. by rewrite <- app_assoc.
    + go. by rewrite <- app_assoc.
  - done.
Qed.

Lemma poll_run (w : World) :
  let get path := apiFetch_request (env w) path no_init in
  run net poll w =
  {| ui := match (settle net (length (sent w)) (poll_batch (env w))).2 with
           | Fulfilled (l, (p, st)) =>
               setStats (Some st) (setPosts p (setLogs l (ui w)))
           | Rejected _ => ui w
           end;
     env := env w; location := location w; interval := interval w;
     sent := sent w ++ [get "/api/logs"; get "/api/posts"; get "/api/stats"];
     suspended := suspended w; unhandled := unhandled w |}.
Proof.
  intros get. unfold poll. go.
  destruct (settle net (length (sent w)) (poll_batch (env w))).2
    as [(l & p & st)|e]; go; done.
Qed.

Lemma saveConfig_run (w : World) (c : Config) :
  cfg (ui w) = Some c →
  let req := apiFetch_request (env w) "/api/config"
               (POST (json_of_config c)) in
  run net (saveConfig (ui w)) w =
  {| ui := match apiFetch_settle (result (net TConfig (length (sent w)) req)) with
           | Fulfilled saved =>
               setRunAuto (negb (approval_required saved))
                 (setCfg (Some saved) (setErr None (ui w)))
           | Rejected e => setErr (Some (errText e)) (setErr None (ui w))
           end;
     env := env w; location := location w; interval := interval w;
     sent := sent w ++ [req];
     suspended := suspended w; unhandled := unhandled w |}.
Proof.
  intros Hc req. unfold saveConfig. rewrite Hc. go1. fold req.
  destruct (apiFetch_settle (result (net TConfig (length (sent w)) req)));
    go1; done.
Qed.

Lemma runNow_run (w : World) :
  let req := apiFetch_request (env w) "/api/run"
               (POST (JObj [("auto_publish", JBool (runAuto (ui w)))])) in
  run net (runNow (ui w)) w =
  {| ui := setRunLoading false
             (match apiFetch_settle
                      (result (net TEnqueued (length (sent w)) req)) with
              | Fulfilled _ => setTab tab_logs
              | Rejected e => setErr (Some (errText e))
              end (setRunLoading true (setErr None (ui w))));
     env := env w; location := location w; interval := interval w;
     sent := sent w ++ [req];
     suspended := suspended w; unhandled := unhandled w |}.
Proof.
  intros req. unfold runNow. go1. fold req.
  destruct (apiFetch_settle (result (net TEnqueued (length (sent w)) req)));
    go1; done.
Qed.

Lemma addSource_run (w : World) :
  let n := length (sent w) in
  let add_req :=
    apiFetch_request (env w) "/api/sources"
      (POST (JObj [ ("platform", json_of_platform (newPlatform (ui w)));
                    ("handle", JStr (newHandle (ui w)));
                    ("enabled", JBool true) ])) in
  let list_req := apiFetch_request (env w) "/api/sources" no_init in
  run net (addSource (ui w)) w =
  match apiFetch_settle (result (net TSource n add_req)) with
  | Rejected e =>
      {| ui := setErr (Some (errText e)) (setErr None (ui w));
         env := env w; location := location w; interval := interval w;
         sent := sent w ++ [add_req];
         suspended := suspended w; unhandled := unhandled w |}
  | Fulfilled _ =>
      {| ui := match apiFetch_settle (result (net TSources (S n) list_req)) with
               | Fulfilled srcs => setSources srcs
               | Rejected e => setErr (Some (errText e))
               end (setNewHandle "" (setErr None (ui w)));
         env := env w; location := location w; interval := interval w;
         sent := sent w ++ [add_req; list_req];
         suspended := suspended w; unhandled := unhandled w |}
  end.
Proof.
  intros n add_req list_req. unfold addSource. go1. fold n add_req.
  destruct (apiFetch_settle (result (net TSource n add_req))); [|done].
  go1. rewrite length_app, Nat.add_1_r. fold n list_req.
  destruct (apiFetch_settle (result (net TSources (S n) list_req)));
    go1; by rewrite <- app_assoc.
Qed.

Lemma approve_run (w : World) (i : Z) :
  let n := length (sent w) in
  let approve_req :=
    apiFetch_request (env w) ("/api/posts/" +:+ pretty i +:+ "/approve")
      (POST (JObj [])) in
  let posts_req := apiFetch_request (env w) "/api/posts" no_init in
  run net (approve i) w =
  match apiFetch_settle (result (net TUnknown n approve_req)) with
  | Rejected e =>
      {| ui := setErr (Some (errText e)) (setErr None (ui w));
         env := env w; location := location w; interval := interval w;
         sent := sent w ++ [approve_req];
         suspended := suspended w; unhandled := unhandled w |}
  | Fulfilled _ =>
      {| ui := match apiFetch_settle (result (net TPosts (S n) posts_req)) with
               | Fulfilled p => setPosts p
               | Rejected e => setErr (Some (errText e))
               end (setErr None (ui w));
         env := env w; location := location w; interval := interval w;
         sent := sent w ++ [approve_req; posts_req];
         suspended := suspended w; unhandled := unhandled w |}
  end.
Proof.
  intros n approve_req posts_req. unfold approve. go1. fold n approve_req.
  destruct (apiFetch_settle (result (net TUnknown n approve_req))); [|done].
  go1. rewrite length_app, Nat.add_1_r. fold n posts_req.
  destruct (apiFetch_settle (result (net TPosts (S n) posts_req)));
    go1; by rewrite <- app_assoc.
Qed.

Lemma clearLogs_run (w : World) :
  let n := length (sent w) in
  let clear_req :=
    apiFetch_request (env w) "/api/logs/clear" (POST (JObj [])) in
  let logs_req := apiFetch_request (env w) "/api/logs" no_init in
  run net clearLogs w =
  match apiFetch_settle (result (net TUnknown n clear_req)) with
  | Rejected e =>
      {| ui := ui w;
         env := env w; location := location w; interval := interval w;
         sent := sent w ++ [clear_req];
         suspended := suspended w; unhandled := unhandled w ++ [e] |}
  | Fulfilled _ =>
      match apiFetch_settle (result (net TLogs (S n) logs_req)) with
      | Fulfilled l =>
          {| ui := setLogs l (ui w);
             env := env w; location := location w; interval := interval w;
             sent := sent w ++ [clear_req; logs_req];
             suspended := suspended w; unhandled := unhandled w |}
      | Rejected e =>
          {| ui := ui w;
             env := env w; location := location w; interval := interval w;
             sent := sent w ++ [clear_req; logs_req];
             suspended := suspended w; unhandled := unhandled w ++ [e] |}
      end
  end.
Proof.
  intros n clear_req logs_req. unfold clearLogs. go1. fold n clear_req.
  destruct (apiFetch_settle (result (net TUnknown n clear_req))); [|done].
  go1. rewrite length_app, Nat.add_1_r. fold n logs_req.
  destruct (apiFetch_settle (result (net TLogs (S n) logs_req)));
    go1; unfold uncaught, send; simpl; by rewrite <- app_assoc.
Qed.
End Handlers.

Section Batches.
Context (net : Net).

(** A rejected load batch carries the error of one of its calls. *)
Lemma load_batch_rejected (n : nat) (e : Env) (x : JsError) :
  let get path := apiFetch_request e path no_init in
  (settle net n (load_batch e)).2 = Rejected x →
  Some x ∈
    [ rejection (apiFetch_settle (result (net TConfig n (get "/api/config"))));
      rejection (apiFetch_settle
                   (result (net TSources (1 + n)%nat (get "/api/sources"))));
      rejection (apiFetch_settle
                   (result (net TStats (2 + n)%nat (get "/api/stats"))));
      rejection (apiFetch_settle
                   (result (net TLogs (3 + n)%nat (get "/api/logs"))));
      rejection (apiFetch_settle
                   (result (net TPosts (4 + n)%nat (get "/api/posts")))) ].
Proof.
  intros get Hx. subst get.
  pose proof (load_batch_outcome net n e) as H. cbv zeta in H.
  revert H.
  repeat match goal with
  | |- context [apiFetch_settle ?r] => destruct (apiFetch_settle r)
  end; cbn beta iota; intros H;
  first [ congruence
        | destruct H as (y & Hy & Hin); rewrite Hx in Hy;
          injection Hy as ->; exact Hin ].
Qed.

(** A fulfilled load batch means that none of its calls was rejected. *)
Lemma load_batch_fulfilled (n : nat) (e : Env) v :
  let get path := apiFetch_request e path no_init in
  (settle net n (load_batch e)).2 = Fulfilled v →
  [ rejection (apiFetch_settle (result (net TConfig n (get "/api/config"))));
    rejection (apiFetch_settle
                 (result (net TSources (1 + n)%nat (get "/api/sources"))));
    rejection (apiFetch_settle
                 (result (net TStats (2 + n)%nat (get "/api/stats"))));
    rejection (apiFetch_settle
                 (result (net TLogs (3 + n)%nat (get "/api/logs"))));
    rejection (apiFetch_settle
                 (result (net TPosts (4 + n)%nat (get "/api/posts")))) ]
  = [None; None; None; None; None].
Proof.
  intros get Hx. subst get.
  pose proof (load_batch_outcome net n e) as H. cbv zeta in H.
  revert H.
  repeat match goal with
  | |- context [apiFetch_settle ?r] => destruct (apiFetch_settle r)
  end; cbn beta iota; intros H;
  first [ reflexivity
        | destruct H as (y & Hy & Hin); congruence ].
Qed.
End Batches.

(** ** Initial load *)

(** C2, as the code has it.  When the identity fetch or any one of the five
    concurrent fetches of the initial load is rejected, the whole load
    fails: the error of a failed fetch is put in [err], the stored
    credential is cleared and the page is sent to the login page, whatever
    kind of failure it was.  Nothing of the Config, sources, candidates,
    stats, logs and run mode is changed. *)
Theorem loadAll_failure_clears_credential
    (net : Net) (w : World) (e0 : JsError) :
  let n := length (sent w) in
  let get path := apiFetch_request (env w) path no_init in
  let failures :=
    [ rejection (apiFetch_settle (result (net TMe n (get "/me"))));
      rejection (apiFetch_settle
                   (result (net TConfig (1 + n)%nat (get "/api/config"))));
      rejection (apiFetch_settle
                   (result (net TSources (2 + n)%nat (get "/api/sources"))));
      rejection (apiFetch_settle
                   (result (net TStats (3 + n)%nat (get "/api/stats"))));
      rejection (apiFetch_settle
                   (result (net TLogs (4 + n)%nat (get "/api/logs"))));
      rejection (apiFetch_settle
                   (result (net TPosts (5 + n)%nat (get "/api/posts")))) ] in
  let w' := run net loadAll w in
  Some e0 ∈ failures →
  ∃ e, Some e ∈ failures ∧
       err (ui w') = Some (errText e) ∧
       getToken (env w') = None ∧
       location w' = location w ++ ["/login"] ∧
       cfg (ui w') = cfg (ui w) ∧ sources (ui w') = sources (ui w) ∧
       posts (ui w') = posts (ui w) ∧ stats (ui w') = stats (ui w) ∧
       logs (ui w') = logs (ui w) ∧ runAuto (ui w') = runAuto (ui w).
Proof.
  intros n get failures w' He0. subst w' failures get n.
  pose proof (loadAll_run net w) as Hrun. cbv zeta in Hrun.
  rewrite settle_apiFetch in Hrun.
  destruct (apiFetch_settle
              (result (net TMe (length (sent w))
                         (apiFetch_request (env w) "/me" no_init))))
    as [m|e].
  - destruct (settle net (S (length (sent w))) (load_batch (env w))).2
      as [(c & s & st & l & p)|e] eqn:Hb.
    + apply load_batch_fulfilled in Hb. cbv zeta in Hb.
      cbn [Nat.add] in Hb, He0.
      apply elem_of_cons in He0 as [He0|He0]; [discriminate He0|].
      rewrite Hb in He0.
      repeat (apply elem_of_cons in He0 as [He0|He0]; [discriminate He0|]).
      by apply elem_of_nil in He0.
    + apply load_batch_rejected in Hb. cbv zeta in Hb.
      exists e. split; [by apply list_elem_of_further|].
      rewrite Hrun. simpl. by rewrite getToken_clearToken.
  - exists e. split; [apply list_elem_of_here|].
    rewrite Hrun. simpl. by rewrite getToken_clearToken.
Qed.

Lemma loadAll_failure_clears_credential_witness :
  let net := failing_at "http://localhost:8000/api/sources" 500 "boom" in
  ∃ e, Some e ∈
         [ None; None; Some (Error "boom"); None; None; None ] ∧
       err (ui (run net loadAll w0)) = Some (errText e) ∧
       getToken (env (run net loadAll w0)) = None ∧
       location (run net loadAll w0) = location w0 ++ ["/login"] ∧
       cfg (ui (run net loadAll w0)) = cfg (ui w0) ∧
       sources (ui (run net loadAll w0)) = sources (ui w0) ∧
       posts (ui (run net loadAll w0)) = posts (ui w0) ∧
       stats (ui (run net loadAll w0)) = stats (ui w0) ∧
       logs (ui (run net loadAll w0)) = logs (ui w0) ∧
       runAuto (ui (run net loadAll w0)) = runAuto (ui w0).
Proof.
  intros net.
  apply (loadAll_failure_clears_credential net w0 (Error "boom")).
  vm_compute. apply list_elem_of_further, list_elem_of_further, list_elem_of_here.
Defined.

(** C2, as the spec words it, fails: a server error (status 500) on one of
    the concurrent fetches is no authentication failure, and yet the
    credential is gone after the load. *)
Lemma loadAll_clears_credential_on_server_error :
  let net := failing_at "http://localhost:8000/api/sources" 500 "boom" in
  getToken (env w0) = Some "secret" ∧
  getToken (env (run net loadAll w0)) = None ∧
  location (run net loadAll w0) = ["/login"] ∧
  err (ui (run net loadAll w0)) = Some "boom".
Proof. repeat split; vm_compute; reflexivity. Qed.

(** ** Approving a candidate *)

(** C3, as the code has it.  [approve i] sends the approve request; when
    that call succeeds it fetches the candidates again and, when this second
    call succeeds too, replaces the local list by what the server sent.
    When the approve call fails, the error is displayed, no second request
    is sent and the local list stays as it was. *)
Theorem approve_refetches_after_success (net : Net) (w : World) (i : Z) :
  let n := length (sent w) in
  let approve_req :=
    apiFetch_request (env w) ("/api/posts/" +:+ pretty i +:+ "/approve")
      (POST (JObj [])) in
  let posts_req := apiFetch_request (env w) "/api/posts" no_init in
  let w' := run net (approve i) w in
  match apiFetch_settle (result (net TUnknown n approve_req)) with
  | Rejected e =>
      sent w' = sent w ++ [approve_req] ∧
      posts (ui w') = posts (ui w) ∧
      err (ui w') = Some (errText e)
  | Fulfilled _ =>
      sent w' = sent w ++ [approve_req; posts_req] ∧
      match apiFetch_settle (result (net TPosts (S n) posts_req)) with
      | Fulfilled p => posts (ui w') = p ∧ err (ui w') = None
      | Rejected e =>
          posts (ui w') = posts (ui w) ∧ err (ui w') = Some (errText e)
      end
  end.
Proof.
  intros n approve_req posts_req w'. subst w'.
  rewrite approve_run. fold n approve_req posts_req.
  destruct (apiFetch_settle (result (net TUnknown n approve_req))); [|done].
  split; [done|].
  by destruct (apiFetch_settle (result (net TPosts (S n) posts_req))).
Qed.

(** C3, as the spec words it, fails: the server refuses the approval, and
    the candidates are not fetched again.  The only request sent is the
    approve call, and the local list keeps candidate 42 as awaiting approval
    although the server's list has it published. *)
Lemma approve_failure_sends_no_refetch :
  let net :=
    failing_at "http://localhost:8000/api/posts/42/approve" 409 "refused" in
  let w' := run net (approve 42) w1 in
  url <$> sent w' = ["http://localhost:8000/api/posts/42/approve"] ∧
  err (ui w') = Some "refused" ∧
  posts (ui w') = [candidate 42 "awaiting_approval"] ∧
  (settle net 1 (apiFetch TPosts "/api/posts" no_init env0)).2
  = Fulfilled [candidate 42 "published"].
Proof. repeat split; vm_compute; reflexivity. Qed.

(** ** Traces of the event loop *)

Section Traces.
Context (net : Net).

(** An event that starts neither a load nor a save leaves the run mode to
    the operator's select. *)
Lemma step_runAuto ev w :
  resets_mode ev = false → all_quiet runAuto w →
  runAuto (ui (step net ev w))
  = match ev with OnMode a => a | _ => runAuto (ui w) end ∧
  all_quiet runAuto (step net ev w).
Proof.
  intros Hev Hw. destruct ev; try discriminate Hev; unfold step; cbv beta iota;
    try (apply untouched_exec; [by frame|done]).
  - done.
  - destruct (interval w); [|done]. apply untouched_exec; [by frame|done].
  - by apply untouched_resume.
  - done.
  - destruct (cfg (ui w)); [|done]. apply untouched_exec; [by frame|done].
Qed.

Lemma step_cfg ev w :
  touches_cfg ev = false → all_quiet cfg w →
  cfg (ui (step net ev w)) = cfg (ui w) ∧ all_quiet cfg (step net ev w).
Proof.
  intros Hev Hw. destruct ev; try discriminate Hev; unfold step; cbv beta iota;
    try (apply untouched_exec; [by frame|done]).
  - done.
  - destruct (interval w); [|done]. apply untouched_exec; [by frame|done].
  - by apply untouched_resume.
Qed.

Lemma step_sources ev w :
  touches_sources ev = false → all_quiet sources w →
  sources (ui (step net ev w)) = sources (ui w) ∧
  all_quiet sources (step net ev w).
Proof.
  intros Hev Hw. destruct ev; try discriminate Hev; unfold step; cbv beta iota;
    try (apply untouched_exec; [by frame|done]).
  - done.
  - destruct (interval w); [|done]. apply untouched_exec; [by frame|done].
  - by apply untouched_resume.
  - destruct (cfg (ui w)); [|done]. apply untouched_exec; [by frame|done].
Qed.

Lemma steps_runAuto evs w :
  Forall (λ ev, resets_mode ev = false) evs → all_quiet runAuto w →
  runAuto (ui (steps net evs w)) = last_mode (runAuto (ui w)) evs.
Proof.
  intros Hevs. revert w.
  induction Hevs as [|ev evs Hev _ IH]; intros w Hw; [done|].
  unfold steps, last_mode in *. simpl.
  destruct (step_runAuto ev w Hev Hw) as [E Q].
  rewrite (IH _ Q), E. done.
Qed.

Lemma steps_cfg evs w :
  Forall (λ ev, touches_cfg ev = false) evs → all_quiet cfg w →
  cfg (ui (steps net evs w)) = cfg (ui w).
Proof.
  intros Hevs. revert w.
  induction Hevs as [|ev evs Hev _ IH]; intros w Hw; [done|].
  unfold steps in *. simpl.
  destruct (step_cfg ev w Hev Hw) as [E Q].
  by rewrite (IH _ Q).
Qed.

Lemma steps_sources evs w :
  Forall (λ ev, touches_sources ev = false) evs → all_quiet sources w →
  sources (ui (steps net evs w)) = sources (ui w).
Proof.
  intros Hevs. revert w.
  induction Hevs as [|ev evs Hev _ IH]; intros w Hw; [done|].
  unfold steps in *. simpl.
  destruct (step_sources ev w Hev Hw) as [E Q].
  by rewrite (IH _ Q).
Qed.


End Traces.

(** ** The run mode *)

(** C4.  A successful load and a successful save both set the run mode to
    the negation of [approval_required] of the Config the server sent; and
    as long as no load and no save is started, the run mode is the one the
    operator selected last, whatever the cached Config says and whatever
    else happens on the page (polls, approvals, edits of the settings form,
    runs, answers arriving in any order). *)
Theorem run_mode_reset_and_override (net : Net) (w : World) :
  (∀ m c s st l p,
     apiFetch_settle
       (result (net TMe (length (sent w))
                  (apiFetch_request (env w) "/me" no_init))) = Fulfilled m →
     (settle net (S (length (sent w))) (load_batch (env w))).2
     = Fulfilled (c, (s, (st, (l, p)))) →
     cfg (ui (run net loadAll w)) = Some c ∧
     runAuto (ui (run net loadAll w)) = negb (approval_required c)) ∧
  (∀ c saved,
     cfg (ui w) = Some c →
     apiFetch_settle
       (result (net TConfig (length (sent w))
                  (apiFetch_request (env w) "/api/config"
                     (POST (json_of_config c))))) = Fulfilled saved →
     cfg (ui (run net (saveConfig (ui w)) w)) = Some saved ∧
     runAuto (ui (run net (saveConfig (ui w)) w))
     = negb (approval_required saved)) ∧
  (∀ evs,
     suspended w = [] →
     Forall (λ ev, resets_mode ev = false) evs →
     runAuto (ui (steps net evs w)) = last_mode (runAuto (ui w)) evs).
Proof.
  split; [|split].
  - intros m c s st l p Hm Hb.
    pose proof (loadAll_run net w) as Hrun. cbv zeta in Hrun.
    rewrite settle_apiFetch, Hm, Hb in Hrun. by rewrite Hrun.
  - intros c saved Hc Hs.
    rewrite (saveConfig_run net w c Hc). cbv zeta. cbn [ui].
    by rewrite Hs.
  - intros evs Hw Hevs. apply steps_runAuto; [done|].
    unfold all_quiet. rewrite Hw. constructor.
Qed.

Lemma run_mode_reset_and_override_witness :
  (cfg (ui (run healthy loadAll w0)) = Some auto_config ∧
   runAuto (ui (run healthy loadAll w0)) = negb (approval_required auto_config)) ∧
  (cfg (ui (run healthy (saveConfig (ui w1)) w1)) = Some auto_config ∧
   runAuto (ui (run healthy (saveConfig (ui w1)) w1))
   = negb (approval_required auto_config)) ∧
  runAuto (ui (steps healthy
                 [OnMode true; OnCfg (edit_approval_required true); Tick;
                  Resume 0; OnRunNow] w1))
  = last_mode (runAuto (ui w1))
      [OnMode true; OnCfg (edit_approval_required true); Tick; Resume 0;
       OnRunNow].
Proof.
  destruct (run_mode_reset_and_override healthy w0) as (H1 & _ & _).
  destruct (run_mode_reset_and_override healthy w1) as (_ & H2 & H3).
  split; [|split].
  - apply (H1 (answer TMe) auto_config [] (answer TStats) []
              [candidate 42 "published"]); reflexivity.
  - apply (H2 manual_config auto_config); reflexivity.
  - apply H3; [reflexivity|]. repeat constructor.
Defined.

(** ** Running the pipeline *)

(** C7.  One call of [runNow] sends one request, a POST to [/api/run] whose
    body is [{auto_publish: runAuto}] with the run mode of that moment,
    whatever the cached Config is; the mode selected just before is the one
    sent; and two calls with no answer in between send two requests and
    leave two calls in flight.  This is about calls of the handler, which
    has no guard of its own: the page disables the run button while a run is
    in flight, so a second click is not possible there. *)
Theorem runNow_sends_one_request_per_call (net : Net) (w : World) :
  let run_req v :=
    apiFetch_request (env w) "/api/run"
      (POST (JObj [("auto_publish", JBool v)])) in
  let now := runAuto (ui w) in
  (∀ v, url (run_req v) = API_URL (env w) +:+ "/api/run" ∧
        method (run_req v) = Some "POST" ∧
        body (run_req v) = Some (JObj [("auto_publish", JBool v)])) ∧
  run_req true ≠ run_req false ∧
  sent (step net OnRunNow w) = sent w ++ [run_req now] ∧
  sent (run net (runNow (ui w)) w) = sent w ++ [run_req now] ∧
  (∀ v, sent (steps net [OnMode v; OnRunNow] w) = sent w ++ [run_req v]) ∧
  sent (steps net [OnRunNow; OnRunNow] w)
  = sent w ++ [run_req now; run_req now] ∧
  length (suspended (steps net [OnRunNow; OnRunNow] w))
  = S (S (length (suspended w))) ∧
  sent (steps net [OnMode true; OnRunNow; OnMode false; OnRunNow] w)
  = sent w ++ [run_req true; run_req false] ∧
  body <$> drop (length (sent w))
             (sent (steps net [OnMode true; OnRunNow; OnMode false; OnRunNow] w))
  = [ Some (JObj [("auto_publish", JBool true)]);
      Some (JObj [("auto_publish", JBool false)]) ] ∧
  disabled (run_button (ui (step net OnRunNow w))) = true.
Proof.
  intros run_req now. subst run_req now.
  split; [done|]. split; [intros H; by apply (f_equal body) in H|].
  split; [done|]. split; [by rewrite runNow_run|]. split; [done|].
  split; [|split; [|split; [|split]]].
  - simpl. by rewrite <- app_assoc.
  - simpl. rewrite !length_app. simpl. lia.
  - simpl. by rewrite <- app_assoc.
  - simpl. rewrite <- app_assoc. by rewrite drop_app_length.
  - done.
Qed.

(** ** Polling *)



(** C9, as the code has it.  A poll cycle leaves the selected tab, the
    identity, the cached Config, the sources and the run mode alone, both
    when it runs in one go and when its answers arrive later; and through
    any run of events the cached Config changes only by a load, a save or
    an edit of the settings form, the sources only by a load or an add. *)
Theorem poll_frame_and_writers (net : Net) (w : World) (evs : list Event) :
  suspended w = [] →
  let w' := run net poll w in
  (tab (ui w') = tab (ui w) ∧ me (ui w') = me (ui w) ∧
   cfg (ui w') = cfg (ui w) ∧ sources (ui w') = sources (ui w) ∧
   runAuto (ui w') = runAuto (ui w)) ∧
  untouched (λ s, (tab s, me s, cfg s, sources s, runAuto s)) poll ∧
  (Forall (λ ev, touches_cfg ev = false) evs →
   cfg (ui (steps net evs w)) = cfg (ui w)) ∧
  (Forall (λ ev, touches_sources ev = false) evs →
   sources (ui (steps net evs w)) = sources (ui w)).
Proof.
  intros Hw w'. subst w'.
  assert (untouched (λ s, (tab s, me s, cfg s, sources s, runAuto s)) poll)
    as Hpoll by (unfold poll; frame).
  split; [|split; [done|split]].
  - pose proof (untouched_run net _ poll w Hpoll) as E. cbv beta in E.
    injection E as E1 E2 E3 E4 E5. auto.
  - intros Hevs. apply steps_cfg; [done|].
    unfold all_quiet. rewrite Hw. constructor.
  - intros Hevs. apply steps_sources; [done|].
    unfold all_quiet. rewrite Hw. constructor.
Qed.

Lemma poll_frame_and_writers_witness :
  let evs := [Tick; OnApprove 42; Resume 0; Resume 0; OnRunNow; Resume 0] in
  cfg (ui (run healthy poll w1)) = cfg (ui w1) ∧
  sources (ui (run healthy poll w1)) = sources (ui w1) ∧
  cfg (ui (steps healthy evs w1)) = cfg (ui w1) ∧
  sources (ui (steps healthy evs w1)) = sources (ui w1).
Proof.
  intros evs.
  destruct (poll_frame_and_writers healthy w1 evs)
    as ((_ & _ & H1 & H2 & _) & _ & H3 & H4).
  - reflexivity.
  - split; [exact H1|]. split; [exact H2|].
    split; [apply H3|apply H4]; repeat constructor.
Defined.

(** C9, as the spec words it, fails: the operator changes a field of the
    settings form and the cached Config changes at once, with no load, no
    save and no request at all. *)
Lemma settings_edit_changes_config :
  let w' := step healthy (OnCfg (edit_approval_required false)) w1 in
  cfg (ui w1) = Some manual_config ∧
  cfg (ui w') = Some auto_config ∧
  sent w' = [].
Proof. repeat split; reflexivity. Qed.

(** ** Failures of the mutations *)

(** The part of C5 the code keeps: when the call of a save, an add, a run or
    an approval is rejected, the error text is put in [err] and the Config,
    sources, candidates, stats and logs stay as they were. *)
Lemma mutation_failures_are_reported (net : Net) (w : World) (e : JsError) :
  let n := length (sent w) in
  let same (w' : World) :=
    err (ui w') = Some (errText e) ∧ cfg (ui w') = cfg (ui w) ∧
    sources (ui w') = sources (ui w) ∧ posts (ui w') = posts (ui w) ∧
    stats (ui w') = stats (ui w) ∧ logs (ui w') = logs (ui w) in
  (∀ c, cfg (ui w) = Some c →
     apiFetch_settle
       (result (net TConfig n
                  (apiFetch_request (env w) "/api/config"
                     (POST (json_of_config c))))) = Rejected e →
     same (run net (saveConfig (ui w)) w)) ∧
  (apiFetch_settle
     (result (net TSource n
                (apiFetch_request (env w) "/api/sources"
                   (POST (JObj [ ("platform",
                                  json_of_platform (newPlatform (ui w)));
                                 ("handle", JStr (newHandle (ui w)));
                                 ("enabled", JBool true) ])))))
   = Rejected e →
   same (run net (addSource (ui w)) w)) ∧
  (apiFetch_settle
     (result (net TEnqueued n
                (apiFetch_request (env w) "/api/run"
                   (POST (JObj [("auto_publish", JBool (runAuto (ui w)))])))))
   = Rejected e →
   same (run net (runNow (ui w)) w)) ∧
  (∀ i,
     apiFetch_settle
       (result (net TUnknown n
                  (apiFetch_request (env w)
                     ("/api/posts/" +:+ pretty i +:+ "/approve")
                     (POST (JObj []))))) = Rejected e →
     same (run net (approve i) w)).
Proof.
  intros n same. subst n same. cbv beta.
  split; [|split; [|split]].
  - intros c Hc He. rewrite (saveConfig_run net w c Hc). cbv zeta.
    cbn [ui]. by rewrite He.
  - intros He. rewrite addSource_run. cbv zeta. by rewrite He.
  - intros He. rewrite runNow_run. cbv zeta. cbn [ui]. by rewrite He.
  - intros i He. rewrite approve_run. cbv zeta. by rewrite He.
Qed.

(** The part it does not keep: a rejected call of [clearLogs] is caught by
    nobody.  The page state stays as it was, [err] included, and the
    rejection is left unhandled. *)
Lemma clearLogs_failure_is_unhandled (net : Net) (w : World) (e : JsError) :
  apiFetch_settle
    (result (net TUnknown (length (sent w))
               (apiFetch_request (env w) "/api/logs/clear" (POST (JObj [])))))
  = Rejected e →
  ui (run net clearLogs w) = ui w ∧
  unhandled (run net clearLogs w) = unhandled w ++ [e].
Proof. intros He. rewrite clearLogs_run. cbv zeta. by rewrite He. Qed.

(** C5 at the failing input: the server answers the clear request with
    status 500.  The log list is unchanged, but nothing is displayed; the
    same answer to an approval is displayed. *)
Theorem clearLogs_failure_is_not_reported :
  let net := answering 500 "boom" in
  ui (run net clearLogs w1) = ui w1 ∧
  logs (ui (run net clearLogs w1)) = [a_log] ∧
  err (ui (run net clearLogs w1)) = None ∧
  unhandled (run net clearLogs w1) = [Error "boom"] ∧
  err (ui (run net (approve 42) w1)) = Some "boom".
Proof. repeat split; vm_compute; reflexivity. Qed.

(** * Further properties *)

(** ** The session store *)

(** X1.  In a browser, a stored token is read back, and removed by
    [clearToken]; neither touches any other key of the storage nor the
    address of the service. *)
Theorem token_round_trip (env : Env) (t : string) :
  localStorage env ≠ None →
  getToken (setToken t env) = Some t ∧
  getToken (clearToken (setToken t env)) = None ∧
  API_URL (setToken t env) = API_URL env ∧
  API_URL (clearToken env) = API_URL env ∧
  (∀ k, k ≠ "token" →
     localStorage (setToken t env) ≫= (λ ls, ls !! k)
     = localStorage env ≫= (λ ls, ls !! k) ∧
     localStorage (clearToken env) ≫= (λ ls, ls !! k)
     = localStorage env ≫= (λ ls, ls !! k)).
Proof.
  intros Hw. unfold getToken, setToken, clearToken, API_URL.
  destruct (localStorage env) as [ls|] eqn:E; [|done]. simpl.
  split; [apply lookup_insert_eq|]. split; [apply lookup_delete_eq|].
  split; [done|]. split; [done|].
  intros k Hk. split.
  - by apply lookup_insert_ne.
  - by apply lookup_delete_ne.
Qed.

Lemma token_round_trip_witness :
  getToken (setToken "abc" env0) = Some "abc" ∧
  getToken (clearToken (setToken "abc" env0)) = None.
Proof.
  destruct (token_round_trip env0 "abc") as (H1 & H2 & _).
  - simpl. discriminate.
  - split; [exact H1|exact H2].
Defined.

(** X2.  Where there is no [window], no token is ever read or written:
    [getToken] gives nothing, [setToken] and [clearToken] do nothing, and
    [apiFetch] adds no Authorization header. *)
Theorem no_window_no_token (env : Env) (t path : string) (init : RequestInit) :
  localStorage env = None →
  getToken env = None ∧
  setToken t env = env ∧
  clearToken env = env ∧
  getToken (setToken t env) = None ∧
  headers (apiFetch_request env path init) !! "Authorization"
  = init_headers init !! "Authorization".
Proof.
  intros Hw. unfold apiFetch_request, getToken, setToken, clearToken.
  rewrite Hw. simpl. rewrite Hw. repeat split; try done.
  by apply lookup_insert_ne.
Qed.

Lemma no_window_no_token_witness :
  let env := {| NEXT_PUBLIC_API_URL := None; localStorage := None |} in
  getToken (setToken "abc" env) = None.
Proof.
  intros env.
  destruct (no_window_no_token env "abc" "/me" no_init) as (_ & _ & _ & H & _).
  - reflexivity.
  - exact H.
Defined.

(** ** The gateway *)



(** ** What the operator sees of a failure *)

(** X4.  The text a handler displays for a thrown error is the message of
    the error, or its name when the message is empty; the error card stays
    hidden exactly when both are empty. *)
Theorem errText_shown (e : JsError) (s : State) :
  errText e = (if decide (message e = "") then name e else message e) ∧
  (err_banner (setErr (Some (errText e)) s) = None ↔
   name e = "" ∧ message e = "") ∧
  (errText e ≠ "" →
   err_banner (setErr (Some (errText e)) s) = Some (errText e)).
Proof.
  assert (errText e = if decide (message e = "") then name e else message e)
    as E.
  { unfold errText, toString.
    destruct (decide (message e = "")) as [Hm|Hm]; [|done].
    destruct (decide (name e = "")) as [Hn|Hn]; [by rewrite Hm, Hn|done]. }
  split; [exact E|]. unfold err_banner. simpl. rewrite E.
  set (t := if decide (message e = "") then name e else message e).
  assert (t = "" ↔ name e = "" ∧ message e = "") as Ht.
  { subst t. destruct (decide (message e = "")); intuition congruence. }
  destruct (decide (t = "")) as [Hz|Hz].
  - split; [split; [intros _; by apply Ht|done]|intros H; by destruct H].
  - split; [split; [discriminate|intros H; destruct Hz; by apply Ht]|done].
Qed.

Lemma errText_shown_witness :
  err_banner
    (setErr (Some (errText {| name := "TypeError";
                              message := "Failed to fetch" |}))
       initial_state)
  = Some (errText {| name := "TypeError"; message := "Failed to fetch" |}).
Proof.
  destruct (errText_shown {| name := "TypeError"; message := "Failed to fetch" |}
              initial_state) as (_ & _ & H).
  apply H. vm_compute. discriminate.
Defined.

(** X5.  A response with a status outside 200-299 always gives a text to
    display that is not empty: the body, or [HTTP <status>] for an empty
    body.  The error card is therefore shown. *)
Theorem http_failure_is_shown {T} (res : Response T) (txt : string) (s : State) :
  ¬ (200 ≤ res_status res ≤ 299) →
  res_text res = Fulfilled txt →
  ∃ e, apiFetch_settle (Fulfilled res) = Rejected e ∧
       errText e = (if decide (txt = "")
                    then "HTTP " +:+ pretty (res_status res) else txt) ∧
       errText e ≠ "" ∧
       err_banner (setErr (Some (errText e)) s) = Some (errText e).
Proof.
  intros Hst Htxt. unfold apiFetch_settle, res_ok.
  rewrite bool_decide_eq_false_2 by done. simpl. rewrite Htxt.
  eexists; split; [reflexivity|].
  assert (errText (Error (error_message txt (res_status res)))
          = if decide (txt = "")
            then "HTTP " +:+ pretty (res_status res) else txt) as E.
  { unfold errText, error_message, Error, toString; simpl.
    destruct (decide (txt = "")); simpl; [done|]. by rewrite decide_False. }
  assert ((if decide (txt = "")
           then "HTTP " +:+ pretty (res_status res) else txt) ≠ "") as N.
  { destruct (decide (txt = "")); [discriminate|done]. }
  rewrite E. split; [done|]. split; [done|].
  unfold err_banner. simpl. by rewrite decide_False.
Qed.

Lemma http_failure_is_shown_witness :
  ∃ e, apiFetch_settle
         (Fulfilled {| res_status := 404; res_text := Fulfilled "";
                       res_json := Rejected (T:=unit) not_json |})
       = Rejected e ∧
       errText e = "HTTP 404" ∧
       errText e ≠ "" ∧
       err_banner (setErr (Some (errText e)) initial_state)
       = Some (errText e).
Proof.
  apply (http_failure_is_shown
           {| res_status := 404; res_text := Fulfilled "";
              res_json := Rejected (T:=unit) not_json |} "" initial_state).
  - simpl. lia.
  - reflexivity.
Defined.

(** X6.  An answer with a success status whose body is not JSON counts as a
    failure: an approval the server accepted that way is displayed as an
    error, and the candidates are not fetched again. *)
Theorem approve_accepted_without_json
    (net : Net) (w : World) (i : Z) (res : Response unit) (e : JsError) :
  let approve_req :=
    apiFetch_request (env w) ("/api/posts/" +:+ pretty i +:+ "/approve")
      (POST (JObj [])) in
  result (net TUnknown (length (sent w)) approve_req) = Fulfilled res →
  200 ≤ res_status res ≤ 299 →
  res_json res = Rejected e →
  sent (run net (approve i) w) = sent w ++ [approve_req] ∧
  err (ui (run net (approve i) w)) = Some (errText e) ∧
  posts (ui (run net (approve i) w)) = posts (ui w).
Proof.
  intros approve_req Hres Hst Hj.
  rewrite approve_run. cbv zeta. fold approve_req. rewrite Hres.
  unfold apiFetch_settle, res_ok. rewrite bool_decide_eq_true_2 by done.
  simpl. by rewrite Hj.
Qed.

Lemma approve_accepted_without_json_witness :
  let net : Net := λ t _ _, reply 204 "" (Rejected not_json) in
  sent (run net (approve 42) w1)
  = sent w1 ++ [apiFetch_request (env w1)
                  ("/api/posts/" +:+ pretty 42 +:+ "/approve")
                  (POST (JObj []))] ∧
  err (ui (run net (approve 42) w1)) = Some (errText not_json) ∧
  posts (ui (run net (approve 42) w1)) = posts (ui w1).
Proof.
  intros net.
  apply (approve_accepted_without_json net w1 42
           {| res_status := 204; res_text := Fulfilled "";
              res_json := Rejected not_json |} not_json).
  - reflexivity.
  - simpl. lia.
  - reflexivity.
Defined.

(** ** Saving the Config *)

(** X7.  With no Config loaded, [saveConfig] does nothing at all: no
    request, no change of the page, nothing in flight. *)
Theorem saveConfig_without_config (net : Net) (w : World) :
  cfg (ui w) = None →
  step net OnSaveConfig w = w ∧ run net (saveConfig (ui w)) w = w.
Proof. intros Hc. unfold step, saveConfig. by rewrite Hc. Qed.

Lemma saveConfig_without_config_witness :
  step healthy OnSaveConfig w0 = w0 ∧ run healthy (saveConfig (ui w0)) w0 = w0.
Proof. apply (saveConfig_without_config healthy w0). reflexivity. Defined.

Lemma json_of_config_inj c1 c2 : json_of_config c1 = json_of_config c2 → c1 = c2.
Proof.
  destruct c1, c2. unfold json_of_config. simpl. intros H.
  by simplify_eq.
Qed.

(** X8.  What [saveConfig] sends is the Config as the operator edited it in
    the form, and the body determines that Config.  When the save fails the
    edits stay in the form and the run mode is untouched; when it succeeds
    the form takes the Config the server sent back. *)
Theorem saveConfig_sends_the_edits
    (net : Net) (w : World) (c : Config) (ed : CfgEdit) :
  cfg (ui w) = Some c →
  let draft := apply_edit ed c in
  let req := apiFetch_request (env w) "/api/config"
               (POST (json_of_config draft)) in
  let w1 := step net (OnCfg ed) w in
  let w' := run net (saveConfig (ui w1)) w1 in
  cfg (ui w1) = Some draft ∧ runAuto (ui w1) = runAuto (ui w) ∧
  sent w1 = sent w ∧
  sent (steps net [OnCfg ed; OnSaveConfig] w) = sent w ++ [req] ∧
  (url req = API_URL (env w) +:+ "/api/config" ∧
   method req = Some "POST" ∧
   body req
   = Some (JObj [ ("approval_required", JBool (approval_required draft));
                  ("interval_days", JNum (interval_days draft));
                  ("max_candidates", JNum (max_candidates draft));
                  ("pick_top_n", JNum (pick_top_n draft)) ])) ∧
  (∀ c', body req = Some (json_of_config c') → c' = draft) ∧
  match apiFetch_settle (result (net TConfig (length (sent w)) req)) with
  | Fulfilled saved => cfg (ui w') = Some saved ∧ err (ui w') = None
  | Rejected e =>
      cfg (ui w') = Some draft ∧ runAuto (ui w') = runAuto (ui w) ∧
      err (ui w') = Some (errText e)
  end.
Proof.
  intros Hc draft req w1 w'.
  assert (w1 = perform (set_state (setCfg (Some draft))) w) as E1.
  { subst w1. unfold step. by rewrite Hc. }
  assert (cfg (ui w1) = Some draft) as Hd by by rewrite E1.
  split; [done|]. split; [by rewrite E1|]. split; [by rewrite E1|].
  split; [|split; [done|split]].
  - change (steps net [OnCfg ed; OnSaveConfig] w)
      with (exec (saveConfig (ui w1)) w1).
    unfold saveConfig. rewrite Hd. by rewrite E1.
  - intros c' Hb. simpl in Hb. symmetry. apply json_of_config_inj. congruence.
  - subst w'. rewrite (saveConfig_run net w1 draft Hd). cbv zeta. cbn [ui].
    rewrite E1. cbn [perform env sent ui]. fold req.
    by destruct (apiFetch_settle (result (net TConfig (length (sent w)) req))).
Qed.

Lemma saveConfig_sends_the_edits_witness :
  let net := answering 500 "boom" in
  let w' := step net (OnCfg (edit_pick_top_n 3)) w1 in
  cfg (ui (run net (saveConfig (ui w')) w'))
  = Some (apply_edit (edit_pick_top_n 3) manual_config) ∧
  err (ui (run net (saveConfig (ui w')) w')) = Some "boom".
Proof.
  intros net w'.
  destruct (saveConfig_sends_the_edits net w1 manual_config (edit_pick_top_n 3))
    as (_ & _ & _ & _ & _ & _ & H).
  - reflexivity.
  - destruct H as (H1 & _ & H2). split; [exact H1|exact H2].
Defined.

(** ** Running, adding, clearing, loading *)

(** X9.  While a run is in flight the run button is disabled; when the call
    has settled it is enabled again, whatever the outcome.  A successful run
    switches to the logs tab; a failed one displays its error and stays on
    the tab it was on.  Neither touches the Config, sources, candidates,
    stats, logs or run mode. *)
Theorem runNow_loading_flag (net : Net) (w : World) :
  let req := apiFetch_request (env w) "/api/run"
               (POST (JObj [("auto_publish", JBool (runAuto (ui w)))])) in
  let w1 := step net OnRunNow w in
  let w' := run net (runNow (ui w)) w in
  (runLoading (ui w1) = true ∧ disabled (run_button (ui w1)) = true ∧
   label (run_button (ui w1)) = "Enqueuing...") ∧
  (runLoading (ui w') = false ∧ disabled (run_button (ui w')) = false ∧
   label (run_button (ui w')) = "Run now") ∧
  match apiFetch_settle (result (net TEnqueued (length (sent w)) req)) with
  | Fulfilled _ => tab (ui w') = tab_logs ∧ err (ui w') = None
  | Rejected e => tab (ui w') = tab (ui w) ∧ err (ui w') = Some (errText e)
  end ∧
  untouched (λ s, (me s, cfg s, sources s, posts s, stats s, logs s,
                   runAuto s)) (runNow (ui w)).
Proof.
  intros req w1 w'. subst w1 w'. split; [done|].
  rewrite runNow_run. cbv zeta. cbn [ui]. fold req.
  split; [done|]. split.
  - by destruct (apiFetch_settle (result (net TEnqueued (length (sent w)) req))).
  - unfold runNow. frame.
Qed.

(** X10.  [addSource] posts the platform and handle of the form with
    [enabled: true].  When the post fails the typed handle stays and no
    list is fetched; when it succeeds the handle field is emptied and the
    sources are fetched again: they replace the local list, or, when that
    second call fails, the local list stays and the error is displayed. *)
Theorem addSource_outcomes (net : Net) (w : World) :
  let n := length (sent w) in
  let add_req :=
    apiFetch_request (env w) "/api/sources"
      (POST (JObj [ ("platform", json_of_platform (newPlatform (ui w)));
                    ("handle", JStr (newHandle (ui w)));
                    ("enabled", JBool true) ])) in
  let list_req := apiFetch_request (env w) "/api/sources" no_init in
  let w' := run net (addSource (ui w)) w in
  (url add_req = API_URL (env w) +:+ "/api/sources" ∧
   method add_req = Some "POST" ∧
   body add_req
   = Some (JObj [ ("platform",
                   JStr match newPlatform (ui w) with
                        | instagram => "instagram"
                        | facebook => "facebook"
                        end);
                  ("handle", JStr (newHandle (ui w)));
                  ("enabled", JBool true) ]) ∧
   url list_req = API_URL (env w) +:+ "/api/sources" ∧
   method list_req = None ∧ body list_req = None) ∧
  match apiFetch_settle (result (net TSource n add_req)) with
  | Rejected e =>
      sent w' = sent w ++ [add_req] ∧
      newHandle (ui w') = newHandle (ui w) ∧
      sources (ui w') = sources (ui w) ∧
      err (ui w') = Some (errText e)
  | Fulfilled _ =>
      sent w' = sent w ++ [add_req; list_req] ∧
      newHandle (ui w') = "" ∧
      match apiFetch_settle (result (net TSources (S n) list_req)) with
      | Fulfilled srcs => sources (ui w') = srcs ∧ err (ui w') = None
      | Rejected e =>
          sources (ui w') = sources (ui w) ∧ err (ui w') = Some (errText e)
      end
  end.
Proof.
  intros n add_req list_req w'. subst w'.
  split.
  { subst add_req list_req. simpl.
    by destruct (newPlatform (ui w)). }
  rewrite addSource_run. fold n add_req list_req.
  destruct (apiFetch_settle (result (net TSource n add_req))); [|done].
  cbn [ui sent].
  by destruct (apiFetch_settle (result (net TSources (S n) list_req))).
Qed.

(** X11.  [clearLogs] never touches the error text: an error displayed
    before stays displayed.  When both of its calls succeed the log list is
    replaced by the list fetched after the clear; when the second call fails
    the list stays and the rejection is left unhandled. *)
Theorem clearLogs_outcomes (net : Net) (w : World) :
  let n := length (sent w) in
  let clear_req :=
    apiFetch_request (env w) "/api/logs/clear" (POST (JObj [])) in
  let logs_req := apiFetch_request (env w) "/api/logs" no_init in
  let w' := run net clearLogs w in
  err (ui w') = err (ui w) ∧
  untouched err clearLogs ∧
  match apiFetch_settle (result (net TUnknown n clear_req)) with
  | Rejected e => sent w' = sent w ++ [clear_req]
  | Fulfilled _ =>
      sent w' = sent w ++ [clear_req; logs_req] ∧
      match apiFetch_settle (result (net TLogs (S n) logs_req)) with
      | Fulfilled l => logs (ui w') = l ∧ unhandled w' = unhandled w
      | Rejected e =>
          logs (ui w') = logs (ui w) ∧ unhandled w' = unhandled w ++ [e]
      end
  end.
Proof.
  intros n clear_req logs_req w'. subst w'.
  split; [|split].
  - apply (untouched_run net err). unfold clearLogs. frame.
  - unfold clearLogs. frame.
  - rewrite clearLogs_run. fold n clear_req logs_req.
    destruct (apiFetch_settle (result (net TUnknown n clear_req))); [|done].
    by destruct (apiFetch_settle (result (net TLogs (S n) logs_req))).
Qed.

(** X12.  The initial load asks for the identity first and for the five
    resources only once the identity has come back: when the identity call
    fails, one request has been sent.  When all six calls succeed the page
    holds exactly what came back, shows no error, keeps the stored token and
    navigates nowhere. *)
Theorem loadAll_success (net : Net) (w : World) :
  let n := length (sent w) in
  let get path := apiFetch_request (env w) path no_init in
  let w' := run net loadAll w in
  match apiFetch_settle (result (net TMe n (get "/me"))) with
  | Rejected _ => sent w' = sent w ++ [get "/me"]
  | Fulfilled m =>
      sent w' = sent w ++ [ get "/me"; get "/api/config"; get "/api/sources";
                            get "/api/stats"; get "/api/logs";
                            get "/api/posts" ] ∧
      ∀ c s st l p,
        apiFetch_settle (result (net TConfig (1 + n)%nat (get "/api/config")))
        = Fulfilled c →
        apiFetch_settle (result (net TSources (2 + n)%nat (get "/api/sources")))
        = Fulfilled s →
        apiFetch_settle (result (net TStats (3 + n)%nat (get "/api/stats")))
        = Fulfilled st →
        apiFetch_settle (result (net TLogs (4 + n)%nat (get "/api/logs")))
        = Fulfilled l →
        apiFetch_settle (result (net TPosts (5 + n)%nat (get "/api/posts")))
        = Fulfilled p →
        ui w' = {| tab := tab (ui w);
                   me := Some {| email := email m;
                                 workspace_name := workspace_name m |};
                   cfg := Some c; sources := s; posts := p; stats := Some st;
                   logs := l; runAuto := negb (approval_required c);
                   runLoading := runLoading (ui w); err := None;
                   newPlatform := newPlatform (ui w);
                   newHandle := newHandle (ui w) |} ∧
        env w' = env w ∧ location w' = location w ∧
        unhandled w' = unhandled w
  end.
Proof.
  intros n get w'. subst w' get n.
  pose proof (loadAll_run net w) as Hrun. cbv zeta in Hrun.
  rewrite settle_apiFetch in Hrun.
  destruct (apiFetch_settle
              (result (net TMe (length (sent w))
                         (apiFetch_request (env w) "/me" no_init))))
    as [m|e]; [|by rewrite Hrun].
  pose proof (load_batch_outcome net (S (length (sent w))) (env w)) as Hb.
  cbv zeta in Hb. cbn [Nat.add] in Hb |- *.
  split.
  - by destruct (settle net (S (length (sent w))) (load_batch (env w))).2
      as [(c & s & st & l & p)|e]; rewrite Hrun.
  - intros c s st l p H1 H2 H3 H4 H5.
    rewrite H1, H2, H3, H4, H5 in Hb. rewrite Hb in Hrun. by rewrite Hrun.
Qed.

Lemma loadAll_success_witness :
  ui (run healthy loadAll w0)
  = {| tab := tab_overview; me := Some (answer TMe);
       cfg := Some auto_config; sources := [];
       posts := [candidate 42 "published"]; stats := Some (answer TStats);
       logs := []; runAuto := true; runLoading := false; err := None;
       newPlatform := instagram; newHandle := "" |} ∧
  env (run healthy loadAll w0) = env w0 ∧
  location (run healthy loadAll w0) = location w0 ∧
  unhandled (run healthy loadAll w0) = unhandled w0.
Proof.
  destruct (loadAll_success healthy w0) as [_ H].
  apply (H auto_config [] (answer TStats) [] [candidate 42 "published"]);
    reflexivity.
Defined.

(** ** Leaving and entering *)

(** X13.  [logout] removes the token and goes to the login page without
    sending anything or changing the page state; from then on the home page
    redirects to the login page and a request carries no bearer
    credential. *)
Theorem logout_forgets_the_token (net : Net) (w : World) (path : string) :
  let w' := run net logout w in
  getToken (env w') = None ∧
  Home (env w') = "/login" ∧
  location w' = location w ++ ["/login"] ∧
  sent w' = sent w ∧ ui w' = ui w ∧ unhandled w' = unhandled w ∧
  headers (apiFetch_request (env w') path no_init) !! "Authorization" = None.
Proof.
  intros w'. subst w'. simpl.
  assert (getToken (clearToken (env w)) = None) as E
    by apply getToken_clearToken.
  unfold Home, apiFetch_request. rewrite E. simpl.
  repeat split; done.
Qed.

(** The home page sends the browser to the dashboard exactly when a
    non-empty token is stored, and to the login page otherwise. *)
Lemma Home_redirect (env : Env) :
  (Home env = "/dashboard" ↔ ∃ t, getToken env = Some t ∧ t ≠ "") ∧
  (Home env = "/login" ↔ ∀ t, getToken env = Some t → t = "").
Proof.
  unfold Home. destruct (getToken env) as [t|];
    [destruct (decide (t = "")) as [->|Ht]|]; split; split;
    try discriminate; try done.
  - intros (t & [= <-] & Ht). done.
  - intros _ t [= <-]. done.
  - intros _. eauto.
  - intros H. destruct Ht. by apply H.
  - intros (t & [=] & _).
Qed.



(** X16.  A failed login displays the error, re-enables the form, and
    neither stores anything nor navigates; the request carries the email and
    password of the form. *)
Theorem login_failure
    (r : Outcome (Response LoginResult)) (w : LoginWorld) (e : JsError) :
  apiFetch_settle r = Rejected e →
  let w' := onSubmit r w in
  form_err (form w') = Some (errText e) ∧
  loading (form w') = false ∧
  login_env w' = login_env w ∧
  pushed w' = pushed w ∧
  form_email (form w') = form_email (form w) ∧
  form_password (form w') = form_password (form w) ∧
  login_sent w' = login_sent w ++ [login_request w] ∧
  body (login_request w)
  = Some (JObj [ ("email", JStr (form_email (form w)));
                 ("password", JStr (form_password (form w))) ]) ∧
  loading (form (onSubmit_call w)) = true.
Proof.
  intros Hr w'. subst w'. unfold onSubmit, onSubmit_settled.
  by rewrite Hr.
Qed.

Lemma login_failure_witness :
  let r := Fulfilled {| res_status := 401; res_text := Fulfilled "bad login";
                        res_json := Rejected (T:=LoginResult) not_json |} in
  let w := {| form := initial_login; login_env := env0; pushed := [];
              login_sent := [] |} in
  form_err (form (onSubmit r w)) = Some "bad login" ∧
  login_env (onSubmit r w) = env0.
Proof.
  intros r w.
  destruct (login_failure r w (Error "bad login")) as (H1 & _ & H2 & _).
  - reflexivity.
  - split; [exact H1|exact H2].
Defined.

(** ** What the dashboard never does *)

Section Discipline.
Context (net : Net).

Lemma apiFetch_request_gateway env path init :
  init_headers init = ∅ → gateway_request env (apiFetch_request env path init).
Proof.
  intros Hh. unfold gateway_request, apiFetch_request, bearer. simpl.
  rewrite Hh.
  destruct (getToken env) as [tk|]; [destruct (decide (tk = ""))|];
    repeat split; eauto.
Qed.

Lemma clearToken_tame : tame (storage clearToken).
Proof.
  intros e. split.
  - unfold API_URL, clearToken. by destruct (localStorage e).
  - right. apply getToken_clearToken.
Qed.

Lemma loadAll_disciplined : disciplined loadAll.
Proof.
  unfold loadAll. discipline apiFetch_request_gateway;
    try apply clearToken_tame; done.
Qed.

Lemma poll_disciplined : disciplined poll.
Proof. unfold poll. discipline apiFetch_request_gateway. Qed.

Lemma saveConfig_disciplined s : disciplined (saveConfig s).
Proof. discipline apiFetch_request_gateway. Qed.

Lemma addSource_disciplined s : disciplined (addSource s).
Proof. unfold addSource. discipline apiFetch_request_gateway. Qed.

Lemma runNow_disciplined s : disciplined (runNow s).
Proof. unfold runNow. discipline apiFetch_request_gateway. Qed.

Lemma approve_disciplined i : disciplined (approve i).
Proof. unfold approve. discipline apiFetch_request_gateway. Qed.

Lemma clearLogs_disciplined : disciplined clearLogs.
Proof. unfold clearLogs. discipline apiFetch_request_gateway. Qed.

Lemma logout_disciplined : disciplined logout.
Proof.
  unfold logout. discipline apiFetch_request_gateway;
    try apply clearToken_tame; done.
Qed.

Lemma kept_refl w :
  Forall (λ s, ∀ o, disciplined (continuation s o)) (suspended w) → kept w w.
Proof.
  intros Hs. split; [done|]. split; [by left|].
  split; [exists []; by rewrite app_nil_r|].
  split; [exists []; by rewrite app_nil_r|done].
Qed.

Lemma gateway_page_request w0 w r :
  API_URL (env w) = API_URL (env w0) →
  (getToken (env w) = getToken (env w0) ∨ getToken (env w) = None) →
  gateway_request (env w) r →
  page_request (API_URL (env w0)) (getToken (env w0)) r.
Proof.
  intros Hb Ht (H1 & H2 & H3 & H4). rewrite Hb in H4.
  split; [done|]. split; [done|]. split; [done|].
  destruct Ht as [Ht|Ht]; rewrite Ht in H2; [by left|by right].
Qed.

Lemma exec_kept w0 m w : disciplined m → kept w0 w → kept w0 (exec m w).
Proof.
  revert w; induction m as [a|e|x k IH|T p k IH]; intros w Hm Hw; simpl.
  - done.
  - done.
  - destruct Hm as [Hx Hk]. apply IH; [done|].
    destruct Hw as (Hb & Ht & Hs & Hl & Hq).
    unfold kept. destruct x as [f|f|href]; simpl in *.
    + done.
    + destruct (Hx (env w)) as [Hx1 Hx2].
      split; [by rewrite Hx1|]. split; [|done].
      destruct Hx2 as [->| ->]; [done|by right].
    + subst href. split; [done|]. split; [done|]. split; [done|].
      split; [|done]. destruct Hl as (new & -> & Hn).
      exists (new ++ ["/login"]). split; [by rewrite app_assoc|].
      apply Forall_app; split; [done|]. by apply Forall_singleton.
  - destruct Hm as [Hp Hk].
    destruct Hw as (Hb & Ht & Hs & Hl & Hq). unfold kept.
    split; [done|]. split; [done|]. split; [|split; [done|]].
    + destruct Hs as (new & Hn & Hf). simpl.
      exists (new ++ issue (p (env w))). split; [by rewrite Hn, app_assoc|].
      apply Forall_app; split; [done|].
      eapply Forall_impl; [apply Hp|].
      intros r Hr. by eapply gateway_page_request.
    + simpl. apply Forall_app; split; [done|].
      apply Forall_singleton. exact Hk.
Qed.

Lemma resume_kept w0 i w : kept w0 w → kept w0 (resume net i w).
Proof.
  intros Hw. unfold resume.
  destruct (suspended w !! i) as [s|] eqn:Hs; [|done].
  destruct Hw as (Hb & Ht & Hsn & Hl & Hq).
  apply exec_kept.
  - eapply Forall_lookup_1 in Hq; eauto.
  - split; [done|]. split; [done|]. split; [done|]. split; [done|].
    simpl. by apply Forall_delete.
Qed.

Lemma step_kept w0 ev w : kept w0 w → kept w0 (step net ev w).
Proof.
  intros Hw. destruct ev; unfold step; cbv beta iota.
  - assert (kept w0 (exec loadAll w)) as H
      by (apply exec_kept; [apply loadAll_disciplined|done]).
    exact H.
  - exact Hw.
  - destruct (interval w); [|done].
    apply exec_kept; [apply poll_disciplined|done].
  - by apply resume_kept.
  - by apply exec_kept.
  - by apply exec_kept.
  - destruct (cfg (ui w)); [|done]. by apply exec_kept.
  - by apply exec_kept.
  - by apply exec_kept.
  - apply exec_kept; [apply saveConfig_disciplined|done].
  - apply exec_kept; [apply addSource_disciplined|done].
  - apply exec_kept; [apply runNow_disciplined|done].
  - apply exec_kept; [apply approve_disciplined|done].
  - apply exec_kept; [apply clearLogs_disciplined|done].
  - apply exec_kept; [apply logout_disciplined|done].
Qed.

Lemma steps_kept evs w0 w : kept w0 w → kept w0 (steps net evs w).
Proof.
  revert w. induction evs as [|ev evs IH]; intros w Hw; [done|].
  unfold steps in *. simpl. apply IH. by apply step_kept.
Qed.

Lemma steps_kept_from evs w :
  suspended w = [] → kept w (steps net evs w).
Proof.
  intros Hs. apply steps_kept, kept_refl. rewrite Hs. constructor.
Qed.
End Discipline.

(** X17.  The dashboard never writes a token and never changes the address
    of the service: through any run of events and whatever the service
    answers, the stored token is the one the page opened with, or none; once
    it is gone it stays gone. *)
Theorem dashboard_never_writes_token
    (net : Net) (w : World) (evs : list Event) :
  suspended w = [] →
  let w' := steps net evs w in
  (getToken (env w') = getToken (env w) ∨ getToken (env w') = None) ∧
  (getToken (env w) = None → getToken (env w') = None) ∧
  API_URL (env w') = API_URL (env w).
Proof.
  intros Hs w'. subst w'.
  destruct (steps_kept_from net evs w Hs) as (Hb & Ht & _).
  split; [done|]. split; [|done].
  intros Hn. destruct Ht as [Ht|Ht]; [congruence|done].
Qed.

Lemma dashboard_never_writes_token_witness :
  let evs := [Mount; Resume 0; Resume 0; Tick; OnLogout; Resume 0] in
  getToken (env (steps healthy evs w0)) = getToken (env w0) ∨
  getToken (env (steps healthy evs w0)) = None.
Proof.
  intros evs.
  destruct (dashboard_never_writes_token healthy w0 evs) as (H & _).
  - reflexivity.
  - exact H.
Defined.

(** X18.  Through any run of events, the only place the dashboard navigates
    to is the login page. *)
Theorem dashboard_navigates_to_login_only
    (net : Net) (w : World) (evs : list Event) :
  suspended w = [] →
  ∃ new, location (steps net evs w) = location w ++ new ∧
         Forall (λ h, h = "/login") new.
Proof.
  intros Hs.
  by destruct (steps_kept_from net evs w Hs) as (_ & _ & _ & Hl & _).
Qed.

Lemma dashboard_navigates_to_login_only_witness :
  ∃ new, location (steps (answering 500 "boom") [Mount; Resume 0; OnLogout] w0)
         = location w0 ++ new ∧
         Forall (λ h, h = "/login") new.
Proof.
  apply (dashboard_navigates_to_login_only (answering 500 "boom") w0
           [Mount; Resume 0; OnLogout]).
  reflexivity.
Defined.



(** X20.  After the page is unmounted no poll fires: as long as it is not
    mounted again, a tick of the timer sends nothing and changes nothing. *)
Theorem no_poll_after_unmount (net : Net) (w : World) (evs : list Event) :
  Forall (λ ev, starts_timer ev = false) evs →
  let w' := steps net evs (step net Unmount w) in
  interval w' = None ∧ step net Tick w' = w'.
Proof.
  intros Hevs w'.
  assert (interval w' = None) as Hi.
  { subst w'. assert (interval (step net Unmount w) = None) as H0 by done.
    revert H0. generalize (step net Unmount w) as v.
    induction Hevs as [|ev evs Hev _ IH]; intros v Hv; [done|].
    unfold steps in *. simpl. apply IH.
    destruct ev; try discriminate Hev; unfold step; cbv beta iota;
      rewrite ?exec_interval, ?resume_interval; try done.
    - by rewrite Hv.
    - destruct (cfg (ui v)); by rewrite ?exec_interval. }
  split; [done|]. unfold step. by rewrite Hi.
Qed.

Lemma no_poll_after_unmount_witness :
  let w' := steps healthy [OnRunNow; Tick; Resume 0]
              (step healthy Unmount (step healthy Mount w0)) in
  interval w' = None ∧ step healthy Tick w' = w'.
Proof.
  apply (no_poll_after_unmount healthy (step healthy Mount w0)
           [OnRunNow; Tick; Resume 0]).
  repeat constructor.
Defined.

(** ** Rendering *)

(** X21.  The approvals card says that nothing is pending exactly when no
    candidate awaits approval; otherwise it shows the count. *)
Theorem pending_text_none (s : State) :
  (pending_text s = "No pending approvals." ↔
   ∀ p, p ∈ posts s → status p ≠ "awaiting_approval") ∧
  (pending (posts s) ≠ [] →
   pending_text s
   = "You have " +:+ pretty (length (pending (posts s))) +:+ " posts waiting.").
Proof.
  unfold pending_text. cbv zeta.
  assert (pending (posts s) = [] ↔
          ∀ p, p ∈ posts s → status p ≠ "awaiting_approval") as Hnil.
  { unfold pending. split.
    - intros Hn p Hp Hst.
      assert (p ∈ filter (λ p, status p = "awaiting_approval") (posts s)) as H
        by by apply list_elem_of_filter.
      rewrite Hn in H. by apply elem_of_nil in H.
    - intros Hall. induction (posts s) as [|p l IH]; [done|].
      rewrite filter_cons_False.
      + apply IH. intros q Hq. apply Hall. by apply list_elem_of_further.
      + apply Hall. apply list_elem_of_here. }
  destruct (pending (posts s)) as [|p l] eqn:E; simpl.
  - split; [|done]. split; [intros _; by apply Hnil|done].
  - split; [|done]. split; [discriminate|].
    intros Hall. apply Hnil in Hall. discriminate.
Qed.

Lemma pending_text_none_witness :
  pending_text (setPosts ten_candidates initial_state)
  = "You have " +:+ pretty (length (pending ten_candidates))
    +:+ " posts waiting.".
Proof.
  destruct (pending_text_none (setPosts ten_candidates initial_state))
    as [_ H].
  apply H. vm_compute. discriminate.
Defined.

(** X22.  On the queue tab there is one card per candidate, in the order of
    the list, and the number of approve buttons is the count the approvals
    card shows; on any other tab there is no card and so no approve
    button. *)
Theorem queue_tab_cards (s : State) :
  (tab s = tab_queue →
   key <$> queue_tab s = id <$> posts s ∧
   length (filter (λ c, is_Some (action c)) (queue_tab s))
   = length (pending (posts s))) ∧
  (tab s ≠ tab_queue → queue_tab s = []).
Proof.
  unfold queue_tab. split.
  - intros ->. unfold pending.
    induction (posts s) as [|p l [IH1 IH2]]; [done|].
    split; [simpl; by f_equal|].
    rewrite fmap_cons.
    destruct (decide (status p = "awaiting_approval")) as [Hp|Hp].
    + rewrite (filter_cons_True (λ p, status p = "awaiting_approval") p l Hp).
      rewrite filter_cons_True; [simpl; by f_equal|].
      unfold queue_card; simpl. rewrite decide_True by done. by eexists.
    + rewrite (filter_cons_False (λ p, status p = "awaiting_approval") p l Hp).
      rewrite filter_cons_False; [done|].
      unfold queue_card; simpl. rewrite decide_False by done.
      by intros [? ?].
  - by destruct (tab s).
Qed.

Lemma queue_tab_cards_witness :
  key <$> queue_tab (ui w1) = id <$> posts (ui w1) ∧
  length (filter (λ c, is_Some (action c)) (queue_tab (ui w1)))
  = length (pending (posts (ui w1))).
Proof.
  destruct (queue_tab_cards (ui w1)) as [H _]. apply H. reflexivity.
Defined.

(** ** Addresses *)

Lemma list_ascii_of_string_app s1 s2 :
  String.list_ascii_of_string (s1 +:+ s2)
  = String.list_ascii_of_string s1 ++ String.list_ascii_of_string s2.
Proof. induction s1 as [|a s1 IH]; simpl; [done|by f_equal]. Qed.

Lemma string_app_inv_tail s1 s2 t : s1 +:+ t = s2 +:+ t → s1 = s2.
Proof.
  intros H. apply (f_equal String.list_ascii_of_string) in H.
  rewrite !list_ascii_of_string_app in H. apply app_inv_tail in H.
  rewrite <- (String.string_of_list_ascii_of_string s1),
          <- (String.string_of_list_ascii_of_string s2).
  by rewrite H.
Qed.

(** X23.  The approve request names its candidate: approvals of two
    different ids send two different requests. *)
Theorem approve_request_names_the_candidate (env : Env) (i j : Z) :
  i ≠ j →
  apiFetch_request env ("/api/posts/" +:+ pretty i +:+ "/approve")
    (POST (JObj []))
  ≠ apiFetch_request env ("/api/posts/" +:+ pretty j +:+ "/approve")
      (POST (JObj [])).
Proof.
  intros Hij H. apply Hij. apply (f_equal url) in H. simpl in H.
  apply (inj (String.app _)) in H.
  apply (inj (String.app "/api/posts/")) in H.
  apply string_app_inv_tail in H.
  by apply (inj pretty) in H.
Qed.

Lemma approve_request_names_the_candidate_witness :
  apiFetch_request env0 ("/api/posts/" +:+ pretty 41 +:+ "/approve")
    (POST (JObj []))
  ≠ apiFetch_request env0 ("/api/posts/" +:+ pretty 42 +:+ "/approve")
      (POST (JObj [])).
Proof.
  apply (approve_request_names_the_candidate env0 41 42). lia.
Defined.

(** ** No retry *)

(** X14.  No handler repeats a call: run to its end, whatever the service
    answers, the load sends at most six requests, a poll exactly three, a
    save at most one, an add, an approval and a clear of the logs at most
    two, a run exactly one, and a logout none. *)
Theorem handlers_send_each_call_once (net : Net) (w : World) :
  let added h := (length (sent (run net h w)) - length (sent w))%nat in
  (added loadAll ≤ 6)%nat ∧ added poll = 3%nat ∧
  (added (saveConfig (ui w)) ≤ 1)%nat ∧
  (added (addSource (ui w)) ≤ 2)%nat ∧
  added (runNow (ui w)) = 1%nat ∧
  (∀ i, (added (approve i) ≤ 2)%nat) ∧
  (added clearLogs ≤ 2)%nat ∧
  added logout = 0%nat.
Proof.
  intros added. subst added. cbv beta.
  split; [|split; [|split; [|split; [|split; [|split; [|split]]]]]].
  - pose proof (loadAll_run net w) as H. cbv zeta in H.
    destruct (settle net (length (sent w))
                (apiFetch TMe "/me" no_init (env w))).2;
      [destruct (settle net (S (length (sent w))) (load_batch (env w))).2
         as [(c & s & st & l & p)|]|];
      rewrite H; cbn [sent]; rewrite length_app; simpl; lia.
  - rewrite poll_run. cbn [sent]. rewrite length_app. simpl. lia.
  - destruct (cfg (ui w)) as [c|] eqn:Hc.
    + rewrite (saveConfig_run net w c Hc). cbn [sent].
      rewrite length_app. simpl. lia.
    + unfold saveConfig. rewrite Hc. simpl. lia.
  - rewrite addSource_run. cbv zeta.
    repeat match goal with
    | |- context [apiFetch_settle ?r] => destruct (apiFetch_settle r)
    end; cbn [sent]; rewrite length_app; simpl; lia.
  - rewrite runNow_run. cbn [sent]. rewrite length_app. simpl. lia.
  - intros i. rewrite approve_run. cbv zeta.
    repeat match goal with
    | |- context [apiFetch_settle ?r] => destruct (apiFetch_settle r)
    end; cbn [sent]; rewrite length_app; simpl; lia.
  - rewrite clearLogs_run. cbv zeta.
    repeat match goal with
    | |- context [apiFetch_settle ?r] => destruct (apiFetch_settle r)
    end; cbn [sent]; rewrite length_app; simpl; lia.
  - simpl. lia.
Qed.
